(** * The pgx policy adapter: filtered loading and schema bootstrap

    A shallow embedding of the adapter's filtered-load path
    ([LoadFilteredPolicyCtx], [loadFilteredPolicies], [IsFilteredCtx]) and of
    its construction path ([NewAdapter], [NewAdapterWithConn],
    [NewAdapterWithPool], [createTable], [createIndex]).

    The adapter is glue between two external collaborators: the database
    driver and the policy-model library.  Both are kept abstract (a type
    class for the driver, section variables for the policy model); a
    reference PostgreSQL world, defined further down, interprets the
    statements the adapter issues. *)

From Stdlib Require Import ZArith Ascii.
From stdpp Require Import gmap strings list sorting.

Set Default Proof Using "Type".

(** ** Go values *)

(** A Go [error] is represented by its message; [None] is the nil error. *)
Definition error := string.

(** [fmt.Errorf(msg + "%w", err)]: the wrapped message follows the prefix. *)
Definition Errorf (msg : string) (err : error) : error := msg +:+ err.

Inductive result (A : Type) : Type :=
| Ok (a : A)
| Err (e : error).
Arguments Ok {A} a.
Arguments Err {A} e.

(** What a call does: it returns its error value, or it panics. *)
Inductive Outcome : Type :=
| Returned (err : option error)
| Panicked (msg : string).

(** [context.Context]: the background context is never cancelled; a derived
    context may be. *)
Inductive Context : Type :=
| Background
| Derived (canceled : bool).

(** [sql.NullString]. *)
Record NullString : Type := { String' : string; Valid : bool }.

(** ** A state monad for the code that mutates the adapter, the model and
    the outside world *)

Definition State (S A : Type) : Type := S -> A * S.

Definition ret {S A} (a : A) : State S A := fun s => (a, s).
Definition bind {S A B} (c : State S A) (k : A -> State S B) : State S B :=
  fun s => let (a, s') := c s in k a s'.
Definition gets {S A} (f : S -> A) : State S A := fun s => (f s, s).
Definition modify {S} (f : S -> S) : State S unit := fun s => (tt, f s).

Declare Scope go_scope.
Delimit Scope go_scope with go.
Notation "x <- c ;; k" := (bind c (fun x => k))
  (at level 100, c at next level, right associativity) : go_scope.
Notation "c ;; k" := (bind c (fun _ => k))
  (at level 100, right associativity) : go_scope.
Local Open Scope go_scope.

(** ** The filter types *)

Record Filter : Type := {
  Ptype : list string;
  V0 : list string;
  V1 : list string;
  V2 : list string;
  V3 : list string;
  V4 : list string;
  V5 : list string
}.

Record BatchFilter : Type := { Filters : list Filter }.

(** The [filter any] argument: an interface value is the nil interface or a
    value of some dynamic type.  A pointer is [None] when it is the nil
    pointer of its type. *)
Inductive GoAny : Type :=
| AnyNil
| AnyFilter (f : Filter)
| AnyFilterPtr (p : option Filter)
| AnyBatchFilter (f : BatchFilter)
| AnyBatchFilterPtr (p : option BatchFilter)
| AnyFilterSlice (f : list Filter)
| AnyOther (typeName : string).

(** ** The query builder (squirrel) *)

Inductive PlaceholderFormat : Type := Question | Dollar.

(** [sq.Eq{column: values}] with a slice value: [column IN (values)]. *)
Record Eq : Type := { eq_column : string; eq_values : list string }.

Record SelectBuilder : Type := {
  sb_placeholder : PlaceholderFormat;
  sb_columns : list string;
  sb_from : option string;
  sb_where : list Eq;
  sb_orderBy : list string
}.

Definition Select (columns : list string) (f : PlaceholderFormat) : SelectBuilder :=
  {| sb_placeholder := f; sb_columns := columns; sb_from := None;
     sb_where := []; sb_orderBy := [] |}.
Definition From (table : string) (b : SelectBuilder) : SelectBuilder :=
  {| sb_placeholder := sb_placeholder b; sb_columns := sb_columns b;
     sb_from := Some table; sb_where := sb_where b; sb_orderBy := sb_orderBy b |}.
Definition OrderBy (cols : list string) (b : SelectBuilder) : SelectBuilder :=
  {| sb_placeholder := sb_placeholder b; sb_columns := sb_columns b;
     sb_from := sb_from b; sb_where := sb_where b;
     sb_orderBy := sb_orderBy b ++ cols |}.
Definition Where (p : Eq) (b : SelectBuilder) : SelectBuilder :=
  {| sb_placeholder := sb_placeholder b; sb_columns := sb_columns b;
     sb_from := sb_from b; sb_where := sb_where b ++ [p];
     sb_orderBy := sb_orderBy b |}.

(** [ToSql] refuses a select without result columns; the statement handed to
    the driver is the builder's content. *)
Definition ToSql (b : SelectBuilder) : result SelectBuilder :=
  match sb_columns b with
  | [] => Err "select statements must have at least one result column"
  | _ => Ok b
  end.

(** ** The driver (pgx) *)

Definition Conn := nat.
Definition Pool := nat.

(** The [DB] interface value held by the adapter: a connection or a pool. *)
Inductive DB : Type :=
| DBConn (c : Conn)
| DBPool (p : Pool).

(** What [rows.Scan(&ptypeVal, &v0, ..., &v5)] stores, or its error. *)
Record ScannedRow : Type := {
  s_ptype : string;
  s_v0 : NullString;
  s_v1 : NullString;
  s_v2 : NullString;
  s_v3 : NullString;
  s_v4 : NullString;
  s_v5 : NullString
}.

Inductive ScanResult : Type :=
| ScanOk (r : ScannedRow)
| ScanErr (e : error).

(** [pgx.Rows]: the rows [Next] steps through, and what [Err] reports once
    [Next] has returned false. *)
Record Rows : Type := { rows_items : list ScanResult; rows_err : option error }.

(** The operations of the driver the adapter calls, over a world [W]. *)
Class Driver (W : Type) : Type := {
  pgx_Connect : Context -> string -> State W (result Conn);
  pgxpool_New : Context -> string -> State W (result Pool);
  conn_Ping : Conn -> Context -> State W (option error);
  pool_Ping : Pool -> Context -> State W (option error);
  conn_Close : Conn -> Context -> State W unit;
  pool_Close : Pool -> State W unit;
  db_Exec : DB -> Context -> string -> State W (option error);
  db_Query : DB -> Context -> SelectBuilder -> State W (result Rows)
}.

(** ** The adapter *)

Record PgxAdapter : Type := {
  db : option DB;
  conn : option Conn;
  pool : option Pool;
  tableName : string;
  database : string;
  psql : PlaceholderFormat;
  isFiltered : bool;
  indexes : list (list string);
  usePool : bool
}.

Definition set_isFiltered (b : bool) (a : PgxAdapter) : PgxAdapter :=
  {| db := db a; conn := conn a; pool := pool a; tableName := tableName a;
     database := database a; psql := psql a; isFiltered := b;
     indexes := indexes a; usePool := usePool a |}.

(** What happens, in order: every call that leaves the adapter's own code and
    every write of the flag. *)
Inductive Event : Type :=
| EvLock
| EvUnlock
| EvRLock
| EvRUnlock
| EvSetFiltered (b : bool)
| EvQuery (d : DB) (ctx : Context) (stmt : SelectBuilder)
| EvRowsClose
| EvLoadPolicyArray (line : list string)
| EvConnect (connStr : string)
| EvNewPool (connStr : string)
| EvPing (d : DB)
| EvClose (d : DB)
| EvExec (d : DB) (sql : string).

(** The state a method call runs in: the adapter object, the policy model
    passed to the call, the world behind the driver, and the log. *)
Record Env (W M : Type) : Type := {
  adapter : PgxAdapter;
  model : M;
  world : W;
  trace : list Event
}.
Arguments adapter {W M} e.
Arguments model {W M} e.
Arguments world {W M} e.
Arguments trace {W M} e.
Arguments Build_Env {W M} adapter model world trace.

Definition log {W M} (ev : Event) : State (Env W M) unit :=
  modify (fun e => Build_Env (adapter e) (model e) (world e) (trace e ++ [ev])).

Definition setFiltered {W M} (b : bool) : State (Env W M) unit :=
  modify (fun e => Build_Env (set_isFiltered b (adapter e)) (model e) (world e)
                             (trace e ++ [EvSetFiltered b])).

(** Runs a driver call on the world component. *)
Definition onWorld {W M A} (c : State W A) : State (Env W M) A :=
  fun e => let (a, w) := c (world e) in
           (a, Build_Env (adapter e) (model e) w (trace e)).

(** Modelled from the spec: the package variable [selectColumns] is declared
    in a file that is not among the sources; the rows are scanned into
    [ptype, v0 .. v5], in this order. *)
Definition selectColumns : list string :=
  ["ptype"; "v0"; "v1"; "v2"; "v3"; "v4"; "v5"].

(** The query of [loadFilteredPolicies]: one membership predicate for each
    column whose list is not empty. *)
Definition filterQuery (a : PgxAdapter) (filterValue : Filter) : SelectBuilder :=
  let query := OrderBy ["id"] (From (tableName a) (Select selectColumns (psql a))) in
  let query := if (0 <? length (Ptype filterValue))%nat
               then Where {| eq_column := "ptype"; eq_values := Ptype filterValue |} query
               else query in
  let query := if (0 <? length (V0 filterValue))%nat
               then Where {| eq_column := "v0"; eq_values := V0 filterValue |} query
               else query in
  let query := if (0 <? length (V1 filterValue))%nat
               then Where {| eq_column := "v1"; eq_values := V1 filterValue |} query
               else query in
  let query := if (0 <? length (V2 filterValue))%nat
               then Where {| eq_column := "v2"; eq_values := V2 filterValue |} query
               else query in
  let query := if (0 <? length (V3 filterValue))%nat
               then Where {| eq_column := "v3"; eq_values := V3 filterValue |} query
               else query in
  let query := if (0 <? length (V4 filterValue))%nat
               then Where {| eq_column := "v4"; eq_values := V4 filterValue |} query
               else query in
  let query := if (0 <? length (V5 filterValue))%nat
               then Where {| eq_column := "v5"; eq_values := V5 filterValue |} query
               else query in
  query.

(** The line built from one scanned row. *)
Definition policyLine (r : ScannedRow) : list string :=
  let line := [s_ptype r] in
  let line := if Valid (s_v0 r) then line ++ [String' (s_v0 r)] else line in
  let line := if Valid (s_v1 r) then line ++ [String' (s_v1 r)] else line in
  let line := if Valid (s_v2 r) then line ++ [String' (s_v2 r)] else line in
  let line := if Valid (s_v3 r) then line ++ [String' (s_v3 r)] else line in
  let line := if Valid (s_v4 r) then line ++ [String' (s_v4 r)] else line in
  let line := if Valid (s_v5 r) then line ++ [String' (s_v5 r)] else line in
  line.

Section Adapter.
Context {W : Type} `{!Driver W}.
(** The policy model and its line loader, [persist.LoadPolicyArray]. *)
Context {M : Type}.
Variable LoadPolicyArray : list string -> M -> M * option error.
(** The adapter's unfiltered load, [LoadPolicyCtx], which is defined in a
    file that is not among the sources. *)
Variable LoadPolicyCtx : Context -> State (Env W M) Outcome.

Definition loadLine (line : list string) : State (Env W M) (option error) :=
  log (EvLoadPolicyArray line) ;;
  fun e => let (m, err) := LoadPolicyArray line (model e) in
           (err, Build_Env (adapter e) m (world e) (trace e)).

Definition query (d : DB) (ctx : Context) (stmt : SelectBuilder)
  : State (Env W M) (result Rows) :=
  log (EvQuery d ctx stmt) ;;
  onWorld (db_Query d ctx stmt).

(** The body of [for rows.Next() { ... }]. *)
Fixpoint scanRows (items : list ScanResult) : State (Env W M) (option error) :=
  match items with
  | [] => ret None
  | ScanErr e :: _ => ret (Some (Errorf "failed to scan row: " e))
  | ScanOk r :: rest =>
      err <- loadLine (policyLine r) ;;
      match err with
      | Some e => ret (Some e)
      | None => scanRows rest
      end
  end.

Definition loadFilteredPolicies (ctx : Context) (filterValue : Filter)
  : State (Env W M) Outcome :=
  a <- gets adapter ;;
  match ToSql (filterQuery a filterValue) with
  | Err e => ret (Returned (Some (Errorf "failed to build query: " e)))
  | Ok sqlQuery =>
      match db a with
      | None => ret (Panicked "invalid memory address or nil pointer dereference")
      | Some d =>
          r <- query d ctx sqlQuery ;;
          match r with
          | Err e => ret (Returned (Some (Errorf "failed to query policies: " e)))
          | Ok rows =>
              err <- scanRows (rows_items rows) ;;
              match err with
              | Some e => log EvRowsClose ;; ret (Returned (Some e))
              | None =>
                  match rows_err rows with
                  | Some e =>
                      log EvRowsClose ;;
                      ret (Returned (Some (Errorf "error iterating rows: " e)))
                  | None => log EvRowsClose ;; ret (Returned None)
                  end
              end
          end
      end
  end.

(** [for _, filterValue := range filters]. *)
Fixpoint loadEach (ctx : Context) (filters : list Filter) : State (Env W M) Outcome :=
  match filters with
  | [] => ret (Returned None)
  | filterValue :: rest =>
      o <- loadFilteredPolicies ctx filterValue ;;
      match o with
      | Returned None => loadEach ctx rest
      | _ => ret o
      end
  end.

(** The type switch of [LoadFilteredPolicyCtx]. *)
Inductive Switch : Type :=
| Resolved (filters : list Filter)
| InvalidType
| NilDereference.

Definition typeSwitch (filter : GoAny) : Switch :=
  match filter with
  | AnyFilter f => Resolved [f]
  | AnyFilterPtr (Some f) => Resolved [f]
  | AnyFilterPtr None => NilDereference
  | AnyBatchFilter f => Resolved (Filters f)
  | AnyBatchFilterPtr (Some f) => Resolved (Filters f)
  | AnyBatchFilterPtr None => NilDereference
  | AnyFilterSlice f => Resolved f
  | AnyNil | AnyOther _ => InvalidType
  end.

Definition LoadFilteredPolicyCtx (ctx : Context) (filter : GoAny)
  : State (Env W M) Outcome :=
  match filter with
  | AnyNil =>
      log EvLock ;;
      setFiltered false ;;
      log EvUnlock ;;
      LoadPolicyCtx ctx
  | _ =>
      match typeSwitch filter with
      | InvalidType => ret (Returned (Some "invalid filter type"))
      | NilDereference =>
          ret (Panicked "invalid memory address or nil pointer dereference")
      | Resolved filters =>
          log EvLock ;;
          setFiltered true ;;
          log EvUnlock ;;
          loadEach ctx filters
      end
  end.

Definition IsFilteredCtx (ctx : Context) : State (Env W M) bool :=
  log EvRLock ;;
  b <- gets (fun e => isFiltered (adapter e)) ;;
  log EvRUnlock ;;
  ret b.

Definition LoadFilteredPolicy (filter : GoAny) : State (Env W M) Outcome :=
  LoadFilteredPolicyCtx Background filter.

Definition IsFiltered : State (Env W M) bool :=
  IsFilteredCtx Background.

End Adapter.

(** ** Identifier quoting and string helpers (pgx, strings) *)

Definition dquote : ascii := "034"%char.
Definition squote : ascii := "039"%char.
Definition NUL : ascii := "000"%char.

(** [strings.ReplaceAll] for a one-character pattern. *)
Fixpoint ReplaceAll (s : string) (old : ascii) (new : string) : string :=
  match s with
  | EmptyString => EmptyString
  | String c s' =>
      if Ascii.eqb c old then new +:+ ReplaceAll s' old new
      else String c (ReplaceAll s' old new)
  end.

(** [strings.Join]. *)
Fixpoint Join (elems : list string) (sep : string) : string :=
  match elems with
  | [] => ""
  | x :: rest =>
      match rest with
      | [] => x
      | _ => x +:+ sep +:+ Join rest sep
      end
  end.

(** [pgx.Identifier.Sanitize]: every part loses its NUL bytes, has its quotes
    doubled and is put between quotes; the parts are joined by a dot. *)
Definition Sanitize (ident : list string) : string :=
  Join (map (fun part =>
               let s := ReplaceAll part NUL "" in
               String dquote (ReplaceAll s dquote (String dquote (String dquote ""))
                              +:+ String dquote ""))
            ident) ".".

(** ** Construction

    The sources hold two revisions of the adapter file.  The later one, which
    is the one embedded here, adds the [DB] interface and the pool; in the
    earlier one [createTable] and [createIndex] build the same statements and
    execute them on the connection itself. *)

(** The state construction runs in: the world behind the driver, and the log. *)
Record Sys (W : Type) : Type := { sys_world : W; sys_trace : list Event }.
Arguments sys_world {W} s.
Arguments sys_trace {W} s.
Arguments Build_Sys {W} sys_world sys_trace.

Definition note {W} (ev : Event) : State (Sys W) unit :=
  modify (fun s => Build_Sys (sys_world s) (sys_trace s ++ [ev])).

Definition inWorld {W A} (c : State W A) : State (Sys W) A :=
  fun s => let (a, w) := c (sys_world s) in (a, Build_Sys w (sys_trace s)).

Definition defaultTableName : string := "casbin_rule".
Definition defaultDatabase : string := "casbin".

(** The type [Option]: a function that configures the adapter it is given. *)
Definition Option : Type := PgxAdapter -> PgxAdapter.

Definition WithTableName (name : string) : Option := fun a =>
  {| db := db a; conn := conn a; pool := pool a; tableName := name;
     database := database a; psql := psql a; isFiltered := isFiltered a;
     indexes := indexes a; usePool := usePool a |}.

Definition WithDatabaseName (name : string) : Option := fun a =>
  {| db := db a; conn := conn a; pool := pool a; tableName := tableName a;
     database := name; psql := psql a; isFiltered := isFiltered a;
     indexes := indexes a; usePool := usePool a |}.

Definition WithIndex (columns : list string) : Option := fun a =>
  if (0 <? length columns)%nat then
    {| db := db a; conn := conn a; pool := pool a; tableName := tableName a;
       database := database a; psql := psql a; isFiltered := isFiltered a;
       indexes := indexes a ++ [columns]; usePool := usePool a |}
  else a.

Definition WithPool : Option := fun a =>
  {| db := db a; conn := conn a; pool := pool a; tableName := tableName a;
     database := database a; psql := psql a; isFiltered := isFiltered a;
     indexes := indexes a; usePool := true |}.

(** [for _, opt := range opts { opt(a) }]. *)
Definition applyOptions (opts : list Option) (a : PgxAdapter) : PgxAdapter :=
  foldl (fun acc opt => opt acc) a opts.

(** The zero value of the struct, [var cfg PgxAdapter]. *)
Definition zeroAdapter : PgxAdapter :=
  {| db := None; conn := None; pool := None; tableName := ""; database := "";
     psql := Question; isFiltered := false; indexes := []; usePool := false |}.

(** What a constructor does: it returns its pair, or it panics. *)
Inductive NewResult : Type :=
| NewReturned (a : option PgxAdapter) (err : option error)
| NewPanicked (msg : string).

Definition newline : string := String "010"%char "".
Definition tab : string := String "009"%char "".

Definition createTableSQL (quotedTableName : string) : string :=
  "CREATE TABLE IF NOT EXISTS " +:+ quotedTableName +:+ " (" +:+ newline +:+
  tab +:+ tab +:+ "id SERIAL PRIMARY KEY," +:+ newline +:+
  tab +:+ tab +:+ "ptype VARCHAR(100) NOT NULL," +:+ newline +:+
  tab +:+ tab +:+ "v0 VARCHAR(100)," +:+ newline +:+
  tab +:+ tab +:+ "v1 VARCHAR(100)," +:+ newline +:+
  tab +:+ tab +:+ "v2 VARCHAR(100)," +:+ newline +:+
  tab +:+ tab +:+ "v3 VARCHAR(100)," +:+ newline +:+
  tab +:+ tab +:+ "v4 VARCHAR(100)," +:+ newline +:+
  tab +:+ tab +:+ "v5 VARCHAR(100)" +:+ newline +:+
  tab +:+ ")".

Definition createUniqueIndexSQL (quotedIndexName quotedTableName : string) : string :=
  "CREATE UNIQUE INDEX IF NOT EXISTS " +:+ quotedIndexName +:+ newline +:+
  tab +:+ tab +:+ "ON " +:+ quotedTableName +:+
  "(ptype, COALESCE(v0,''), COALESCE(v1,''), COALESCE(v2,''), COALESCE(v3,''), COALESCE(v4,''), COALESCE(v5,''))".

Definition indexName (table : string) (columns : list string) : string :=
  "idx_" +:+ table +:+ "_" +:+ Join columns "_".

Definition createIndexSQL (table : string) (columns : list string) : string :=
  let quotedTableName := Sanitize [table] in
  let quotedIndexName := Sanitize [indexName table columns] in
  let quotedColumns := map (fun col => Sanitize [col]) columns in
  "CREATE INDEX IF NOT EXISTS " +:+ quotedIndexName +:+
  " ON " +:+ quotedTableName +:+ "(" +:+ Join quotedColumns ", " +:+ ")".

Section Construction.
Context {W : Type} `{!Driver W}.

Definition exec (d : DB) (ctx : Context) (sql : string)
  : State (Sys W) (option error) :=
  note (EvExec d sql) ;;
  inWorld (db_Exec d ctx sql).

Definition createIndex (a : PgxAdapter) (ctx : Context) (columns : list string)
  : State (Sys W) Outcome :=
  match db a with
  | None => ret (Panicked "invalid memory address or nil pointer dereference")
  | Some d =>
      err <- exec d ctx (createIndexSQL (tableName a) columns) ;;
      match err with
      | Some e =>
          ret (Returned (Some (Errorf ("failed to create index " +:+
                                       indexName (tableName a) columns +:+ ": ") e)))
      | None => ret (Returned None)
      end
  end.

(** [for _, columns := range a.indexes]. *)
Fixpoint createIndexes (a : PgxAdapter) (ctx : Context) (l : list (list string))
  : State (Sys W) Outcome :=
  match l with
  | [] => ret (Returned None)
  | columns :: rest =>
      o <- createIndex a ctx columns ;;
      match o with
      | Returned None => createIndexes a ctx rest
      | _ => ret o
      end
  end.

Definition createTable (a : PgxAdapter) : State (Sys W) Outcome :=
  let ctx := Background in
  let quotedTableName := Sanitize [tableName a] in
  let quotedIndexName := Sanitize ["idx_" +:+ tableName a] in
  match db a with
  | None => ret (Panicked "invalid memory address or nil pointer dereference")
  | Some d =>
      err <- exec d ctx (createTableSQL quotedTableName) ;;
      match err with
      | Some e => ret (Returned (Some (Errorf "failed to create table: " e)))
      | None =>
          err <- exec d ctx (createUniqueIndexSQL quotedIndexName quotedTableName) ;;
          match err with
          | Some e => ret (Returned (Some (Errorf "failed to create index: " e)))
          | None => createIndexes a ctx (indexes a)
          end
      end
  end.

(** The tail shared by [NewAdapterWithConn] and [NewAdapterWithPool]. *)
Definition bootstrap (a : PgxAdapter) : State (Sys W) NewResult :=
  o <- createTable a ;;
  match o with
  | Returned (Some e) => ret (NewReturned None (Some (Errorf "failed to create table: " e)))
  | Returned None => ret (NewReturned (Some a) None)
  | Panicked msg => ret (NewPanicked msg)
  end.

Definition NewAdapterWithConn (c : Conn) (opts : list Option)
  : State (Sys W) NewResult :=
  let a := {| db := Some (DBConn c); conn := Some c; pool := None;
              tableName := defaultTableName; database := defaultDatabase;
              psql := Dollar; isFiltered := false; indexes := [];
              usePool := false |} in
  bootstrap (applyOptions opts a).

Definition NewAdapterWithPool (p : Pool) (opts : list Option)
  : State (Sys W) NewResult :=
  let a := {| db := Some (DBPool p); conn := None; pool := Some p;
              tableName := defaultTableName; database := defaultDatabase;
              psql := Dollar; isFiltered := false; indexes := [];
              usePool := false |} in
  bootstrap (applyOptions opts a).

Definition NewAdapter (connStr : string) (opts : list Option)
  : State (Sys W) NewResult :=
  let ctx := Background in
  let cfg := applyOptions opts zeroAdapter in
  if usePool cfg then
    r <- (note (EvNewPool connStr) ;; inWorld (pgxpool_New ctx connStr)) ;;
    match r with
    | Err e =>
        ret (NewReturned None (Some (Errorf "failed to create connection pool: " e)))
    | Ok p =>
        err <- (note (EvPing (DBPool p)) ;; inWorld (pool_Ping p ctx)) ;;
        match err with
        | Some e =>
            note (EvClose (DBPool p)) ;;
            inWorld (pool_Close p) ;;
            ret (NewReturned None (Some (Errorf "failed to ping database: " e)))
        | None => NewAdapterWithPool p opts
        end
    end
  else
    r <- (note (EvConnect connStr) ;; inWorld (pgx_Connect ctx connStr)) ;;
    match r with
    | Err e =>
        ret (NewReturned None (Some (Errorf "failed to create connection: " e)))
    | Ok c =>
        err <- (note (EvPing (DBConn c)) ;; inWorld (conn_Ping c ctx)) ;;
        match err with
        | Some e =>
            note (EvClose (DBConn c)) ;;
            inWorld (conn_Close c ctx) ;;
            ret (NewReturned None (Some (Errorf "failed to ping database: " e)))
        | None => NewAdapterWithConn c opts
        end
    end.

End Construction.

(** The accessors. *)
Definition GetConn (a : PgxAdapter) : option Conn := conn a.
Definition GetPool (a : PgxAdapter) : option Pool := pool a.
Definition GetDB (a : PgxAdapter) : option DB := db a.
Definition GetTableName (a : PgxAdapter) : string := tableName a.
Definition GetDatabase (a : PgxAdapter) : string := database a.

(** ** The earlier revision

    The earlier revision of the adapter file knows the connection only: no
    [DB] interface, no pool, no [WithPool].  Its statements are executed on
    the connection itself. *)

Module Earlier.

Record PgxAdapter : Type := {
  conn : option Conn;
  tableName : string;
  database : string;
  psql : PlaceholderFormat;
  isFiltered : bool;
  indexes : list (list string)
}.

Definition Option : Type := PgxAdapter -> PgxAdapter.

Definition WithTableName (name : string) : Option := fun a =>
  {| conn := conn a; tableName := name; database := database a; psql := psql a;
     isFiltered := isFiltered a; indexes := indexes a |}.

Definition WithDatabaseName (name : string) : Option := fun a =>
  {| conn := conn a; tableName := tableName a; database := name; psql := psql a;
     isFiltered := isFiltered a; indexes := indexes a |}.

Definition WithIndex (columns : list string) : Option := fun a =>
  if (0 <? length columns)%nat then
    {| conn := conn a; tableName := tableName a; database := database a; psql := psql a;
       isFiltered := isFiltered a; indexes := indexes a ++ [columns] |}
  else a.

Definition applyOptions (opts : list Option) (a : PgxAdapter) : PgxAdapter :=
  foldl (fun acc opt => opt acc) a opts.

Inductive NewResult : Type :=
| NewReturned (a : option PgxAdapter) (err : option error)
| NewPanicked (msg : string).

Section Construction.
Context {W : Type} `{!Driver W}.

Definition createIndex (a : PgxAdapter) (ctx : Context) (columns : list string)
  : State (Sys W) Outcome :=
  match conn a with
  | None => ret (Panicked "invalid memory address or nil pointer dereference")
  | Some c =>
      err <- exec (DBConn c) ctx (createIndexSQL (tableName a) columns) ;;
      match err with
      | Some e =>
          ret (Returned (Some (Errorf ("failed to create index " +:+
                                       indexName (tableName a) columns +:+ ": ") e)))
      | None => ret (Returned None)
      end
  end.

Fixpoint createIndexes (a : PgxAdapter) (ctx : Context) (l : list (list string))
  : State (Sys W) Outcome :=
  match l with
  | [] => ret (Returned None)
  | columns :: rest =>
      o <- createIndex a ctx columns ;;
      match o with
      | Returned None => createIndexes a ctx rest
      | _ => ret o
      end
  end.

Definition createTable (a : PgxAdapter) : State (Sys W) Outcome :=
  let ctx := Background in
  let quotedTableName := Sanitize [tableName a] in
  let quotedIndexName := Sanitize ["idx_" +:+ tableName a] in
  match conn a with
  | None => ret (Panicked "invalid memory address or nil pointer dereference")
  | Some c =>
      err <- exec (DBConn c) ctx (createTableSQL quotedTableName) ;;
      match err with
      | Some e => ret (Returned (Some (Errorf "failed to create table: " e)))
      | None =>
          err <- exec (DBConn c) ctx
                   (createUniqueIndexSQL quotedIndexName quotedTableName) ;;
          match err with
          | Some e => ret (Returned (Some (Errorf "failed to create index: " e)))
          | None => createIndexes a ctx (indexes a)
          end
      end
  end.

Definition NewAdapterWithConn (c : Conn) (opts : list Option)
  : State (Sys W) NewResult :=
  let a := {| conn := Some c; tableName := defaultTableName;
              database := defaultDatabase; psql := Dollar; isFiltered := false;
              indexes := [] |} in
  let a := applyOptions opts a in
  o <- createTable a ;;
  match o with
  | Returned (Some e) => ret (NewReturned None (Some (Errorf "failed to create table: " e)))
  | Returned None => ret (NewReturned (Some a) None)
  | Panicked msg => ret (NewPanicked msg)
  end.

Definition NewAdapter (connStr : string) (opts : list Option)
  : State (Sys W) NewResult :=
  let ctx := Background in
  r <- (note (EvConnect connStr) ;; inWorld (pgx_Connect ctx connStr)) ;;
  match r with
  | Err e =>
      ret (NewReturned None (Some (Errorf "failed to create connection pool: " e)))
  | Ok c =>
      err <- (note (EvPing (DBConn c)) ;; inWorld (conn_Ping c ctx)) ;;
      match err with
      | Some e =>
          note (EvClose (DBConn c)) ;;
          inWorld (conn_Close c ctx) ;;
          ret (NewReturned None (Some (Errorf "failed to ping database: " e)))
      | None => NewAdapterWithConn c opts
      end
  end.

End Construction.

Definition GetConn (a : PgxAdapter) : option Conn := conn a.
Definition GetTableName (a : PgxAdapter) : string := tableName a.
Definition GetDatabase (a : PgxAdapter) : string := database a.

End Earlier.

(** ** A reference PostgreSQL world

    The database is not part of the adapter.  To say what the statements the
    adapter issues mean, this section gives a small model of the server: a
    catalog of relations, a reader for the data-definition statements the
    adapter writes as text, and the evaluation of the select statements it
    builds.  Identifier length limits, reserved words, schemas and
    transactions are outside the model. *)

(** A stored policy rule. *)
Record Row : Type := {
  id : Z;
  ptype : string;
  v0 : option string;
  v1 : option string;
  v2 : option string;
  v3 : option string;
  v4 : option string;
  v5 : option string
}.

Record ColumnDef : Type := {
  col_name : string;
  col_type : string;
  col_notnull : bool;
  col_primary : bool
}.

Inductive IndexElem : Type :=
| IdxColumn (name : string)
| IdxCoalesce (name : string) (default : string).

Inductive Relation : Type :=
| RelTable (cols : list ColumnDef) (rows : list Row)
| RelIndex (unique : bool) (table : string) (elems : list IndexElem).

Inductive DDL : Type :=
| CreateTable (ifNotExists : bool) (name : string) (cols : list ColumnDef)
| CreateIndex (unique ifNotExists : bool) (name : string) (table : string)
              (elems : list IndexElem).

Global Instance ColumnDef_eq_dec : EqDecision ColumnDef.
Proof. solve_decision. Defined.
Global Instance IndexElem_eq_dec : EqDecision IndexElem.
Proof. solve_decision. Defined.

(** *** Lexing *)

Definition isSpace (c : ascii) : bool :=
  let n := nat_of_ascii c in
  (n =? 32)%nat || (n =? 9)%nat || (n =? 10)%nat || (n =? 13)%nat || (n =? 12)%nat.

Definition isUpper (c : ascii) : bool :=
  let n := nat_of_ascii c in (65 <=? n)%nat && (n <=? 90)%nat.
Definition isLower (c : ascii) : bool :=
  let n := nat_of_ascii c in (97 <=? n)%nat && (n <=? 122)%nat.
Definition isDigit (c : ascii) : bool :=
  let n := nat_of_ascii c in (48 <=? n)%nat && (n <=? 57)%nat.
Definition isIdentStart (c : ascii) : bool :=
  isUpper c || isLower c || Ascii.eqb c "_"%char.
Definition isIdentChar (c : ascii) : bool :=
  isIdentStart c || isDigit c || Ascii.eqb c "$"%char.
Definition toLower (c : ascii) : ascii :=
  if isUpper c then ascii_of_nat (nat_of_ascii c + 32) else c.

Fixpoint skipSpaces (s : string) : string :=
  match s with
  | String c s' => if isSpace c then skipSpaces s' else s
  | EmptyString => EmptyString
  end.

Fixpoint stripPrefix (p s : string) : option string :=
  match p with
  | EmptyString => Some s
  | String c p' =>
      match s with
      | String d s' => if Ascii.eqb c d then stripPrefix p' s' else None
      | EmptyString => None
      end
  end.

(** Skips blanks, then reads the given words one after the other. *)
Fixpoint eatWords (ws : list string) (s : string) : option string :=
  match ws with
  | [] => Some s
  | w :: ws' =>
      match stripPrefix w (skipSpaces s) with
      | Some r => eatWords ws' r
      | None => None
      end
  end.

(** The text of a quoted identifier after its opening quote: a doubled quote
    stands for one quote, a single one ends the identifier. *)
Fixpoint lexQuotedBody (s : string) : option (string * string) :=
  match s with
  | EmptyString => None
  | String c s' =>
      if Ascii.eqb c dquote then
        match s' with
        | String c' s'' =>
            if Ascii.eqb c' dquote then
              match lexQuotedBody s'' with
              | Some (n, r) => Some (String dquote n, r)
              | None => None
              end
            else Some (EmptyString, s')
        | EmptyString => Some (EmptyString, EmptyString)
        end
      else
        match lexQuotedBody s' with
        | Some (n, r) => Some (String c n, r)
        | None => None
        end
  end.

Definition lexQuoted (s : string) : option (string * string) :=
  match s with
  | String c s' => if Ascii.eqb c dquote then lexQuotedBody s' else None
  | EmptyString => None
  end.

(** The longest run of identifier characters, folded to lower case. *)
Fixpoint lexRun (s : string) : string * string :=
  match s with
  | String c s' =>
      if isIdentChar c then let (n, r) := lexRun s' in (String (toLower c) n, r)
      else (EmptyString, s)
  | EmptyString => (EmptyString, EmptyString)
  end.

Definition lexBare (s : string) : option (string * string) :=
  match s with
  | String c _ => if isIdentStart c then Some (lexRun s) else None
  | EmptyString => None
  end.

(** An identifier: quoted (kept as written, not empty) or bare (folded). *)
Definition lexIdent (s : string) : option (string * string) :=
  match s with
  | String c _ =>
      if Ascii.eqb c dquote then
        match lexQuoted s with
        | Some (EmptyString, _) => None
        | other => other
        end
      else lexBare s
  | EmptyString => None
  end.

(** A name written without quotes, as in the [FROM] of the built select. *)
Definition foldIdent (s : string) : option string :=
  match lexBare s with
  | Some (n, EmptyString) => Some n
  | _ => None
  end.

Definition consChar (c : ascii) (l : list string) : list string :=
  match l with
  | [] => [String c EmptyString]
  | p :: ps => String c p :: ps
  end.

(** Splits at the commas that are outside parentheses and quotes. *)
Fixpoint splitTop (depth : nat) (inD inS : bool) (s : string) : list string :=
  match s with
  | EmptyString => [EmptyString]
  | String c s' =>
      if inD then consChar c (splitTop depth (negb (Ascii.eqb c dquote)) inS s')
      else if inS then consChar c (splitTop depth inD (negb (Ascii.eqb c squote)) s')
      else if Ascii.eqb c dquote then consChar c (splitTop depth true false s')
      else if Ascii.eqb c squote then consChar c (splitTop depth false true s')
      else if Ascii.eqb c "("%char then consChar c (splitTop (S depth) false false s')
      else if Ascii.eqb c ")"%char then consChar c (splitTop (pred depth) false false s')
      else if Ascii.eqb c ","%char && (depth =? 0)%nat
           then EmptyString :: splitTop 0 false false s'
      else consChar c (splitTop depth false false s')
  end.

Fixpoint splitSpaces (s : string) : list string :=
  match s with
  | EmptyString => [EmptyString]
  | String c s' =>
      if isSpace c then EmptyString :: splitSpaces s'
      else consChar c (splitSpaces s')
  end.

Definition words (s : string) : list string :=
  filter (fun w => w <> EmptyString) (splitSpaces s).

(** The text before a final closing parenthesis. *)
Fixpoint beforeParen (s : string) : option string :=
  match s with
  | EmptyString => None
  | String c s' =>
      match s' with
      | EmptyString => if Ascii.eqb c ")"%char then Some EmptyString else None
      | _ => match beforeParen s' with
             | Some b => Some (String c b)
             | None => None
             end
      end
  end.

(** *** Reading the data-definition statements *)

Fixpoint hasPair (a b : string) (ws : list string) : bool :=
  match ws with
  | x :: rest =>
      match rest with
      | y :: _ => (bool_decide (x = a) && bool_decide (y = b)) || hasPair a b rest
      | [] => false
      end
  | [] => false
  end.

Definition parseColumn (piece : string) : option ColumnDef :=
  match words piece with
  | name :: ty :: constraints =>
      match foldIdent name with
      | Some n =>
          let pk := hasPair "PRIMARY" "KEY" constraints in
          Some {| col_name := n; col_type := ty;
                  col_notnull := hasPair "NOT" "NULL" constraints || pk;
                  col_primary := pk |}
      | None => None
      end
  | _ => None
  end.

Definition parseElem (piece : string) : option IndexElem :=
  let s := skipSpaces piece in
  match s with
  | EmptyString => None
  | String c _ =>
      if Ascii.eqb c dquote then
        match lexIdent s with
        | Some (n, r) =>
            match skipSpaces r with
            | EmptyString => Some (IdxColumn n)
            | _ => None
            end
        | None => None
        end
      else
        match stripPrefix "COALESCE(" s with
        | Some r =>
            match lexBare r with
            | Some (n, r') =>
                match stripPrefix ",'')" r' with
                | Some r'' =>
                    match skipSpaces r'' with
                    | EmptyString => Some (IdxCoalesce n "")
                    | _ => None
                    end
                | None => None
                end
            | None => None
            end
        | None =>
            match lexBare s with
            | Some (n, r) =>
                match skipSpaces r with
                | EmptyString => Some (IdxColumn n)
                | _ => None
                end
            | None => None
            end
        end
  end.

(** All elements of a list read, or none. *)
Fixpoint readAll {A B} (f : A -> option B) (l : list A) : option (list B) :=
  match l with
  | [] => Some []
  | x :: rest =>
      match f x, readAll f rest with
      | Some y, Some ys => Some (y :: ys)
      | _, _ => None
      end
  end.

(** An optional [IF NOT EXISTS]. *)
Definition ifNotExists (s : string) : bool * string :=
  match eatWords ["IF"; "NOT"; "EXISTS"] s with
  | Some r => (true, r)
  | None => (false, s)
  end.

(** The parenthesised list that ends a statement. *)
Definition parenList (s : string) : option (list string) :=
  match stripPrefix "(" (skipSpaces s) with
  | Some r =>
      match beforeParen r with
      | Some body => Some (splitTop 0 false false body)
      | None => None
      end
  | None => None
  end.

Definition parseCreateTable (s : string) : option DDL :=
  let (ine, r) := ifNotExists s in
  match lexIdent (skipSpaces r) with
  | Some (name, r') =>
      match parenList r' with
      | Some pieces =>
          match readAll parseColumn pieces with
          | Some cols => Some (CreateTable ine name cols)
          | None => None
          end
      | None => None
      end
  | None => None
  end.

Definition parseCreateIndex (unique : bool) (s : string) : option DDL :=
  let (ine, r) := ifNotExists s in
  match lexIdent (skipSpaces r) with
  | Some (name, r') =>
      match eatWords ["ON"] r' with
      | Some r'' =>
          match lexIdent (skipSpaces r'') with
          | Some (table, r3) =>
              match parenList r3 with
              | Some pieces =>
                  match readAll parseElem pieces with
                  | Some elems => Some (CreateIndex unique ine name table elems)
                  | None => None
                  end
              | None => None
              end
          | None => None
          end
      | None => None
      end
  | None => None
  end.

Definition parseDDL (sql : string) : option DDL :=
  match eatWords ["CREATE"; "TABLE"] sql with
  | Some r => parseCreateTable r
  | None =>
      match eatWords ["CREATE"; "UNIQUE"; "INDEX"] sql with
      | Some r => parseCreateIndex true r
      | None =>
          match eatWords ["CREATE"; "INDEX"] sql with
          | Some r => parseCreateIndex false r
          | None => None
          end
      end
  end.

(** *** Running a data-definition statement on the catalog *)

(** The value of a text column of a row; [None] for a name that is not one. *)
Definition columnValue (name : string) : option (Row -> option string) :=
  if bool_decide (name = "ptype") then Some (fun r => Some (ptype r))
  else if bool_decide (name = "v0") then Some v0
  else if bool_decide (name = "v1") then Some v1
  else if bool_decide (name = "v2") then Some v2
  else if bool_decide (name = "v3") then Some v3
  else if bool_decide (name = "v4") then Some v4
  else if bool_decide (name = "v5") then Some v5
  else None.

Definition elemColumn (e : IndexElem) : string :=
  match e with
  | IdxColumn n => n
  | IdxCoalesce n _ => n
  end.

Definition hasColumn (cols : list ColumnDef) (name : string) : bool :=
  bool_decide (name ∈ map col_name cols).

(** One component of an index key. *)
Inductive KeyVal : Type :=
| KeyId (z : Z)
| KeyText (s : string).

Global Instance KeyVal_eq_dec : EqDecision KeyVal.
Proof. solve_decision. Defined.

Definition keyColumn (name : string) (r : Row) : option KeyVal :=
  if bool_decide (name = "id") then Some (KeyId (id r))
  else match columnValue name with
       | Some get => KeyText <$> get r
       | None => Some (KeyText "")
       end.

(** The key of a row under an index; [None] when a plain column of the key
    is null (such rows never conflict in a unique index). *)
Fixpoint indexKey (elems : list IndexElem) (r : Row) : option (list KeyVal) :=
  match elems with
  | [] => Some []
  | e :: rest =>
      let v := match e with
               | IdxColumn n => keyColumn n r
               | IdxCoalesce n d => Some (default (KeyText d) (keyColumn n r))
               end in
      match v, indexKey rest r with
      | Some x, Some xs => Some (x :: xs)
      | _, _ => None
      end
  end.

Definition uniqueOn (elems : list IndexElem) (rows : list Row) : bool :=
  bool_decide (NoDup (omap (indexKey elems) rows)).

Definition execDDL (d : DDL) (rels : gmap string Relation)
  : result (gmap string Relation) :=
  match d with
  | CreateTable ine name cols =>
      match rels !! name with
      | Some _ =>
          if ine then Ok rels
          else Err ("relation " +:+ name +:+ " already exists")
      | None =>
          if bool_decide (NoDup (map col_name cols))
          then Ok (<[name := RelTable cols []]> rels)
          else Err "column specified more than once"
      end
  | CreateIndex unique ine name table elems =>
      match rels !! table with
      | Some (RelTable cols rows) =>
          if forallb (fun e => hasColumn cols (elemColumn e)) elems then
            match rels !! name with
            | Some _ =>
                if ine then Ok rels
                else Err ("relation " +:+ name +:+ " already exists")
            | None =>
                if unique && negb (uniqueOn elems rows)
                then Err "could not create unique index"
                else Ok (<[name := RelIndex unique table elems]> rels)
            end
          else Err "column does not exist"
      | Some (RelIndex _ _ _) => Err (table +:+ " is not a table")
      | None => Err ("relation " +:+ table +:+ " does not exist")
      end
  end.

(** *** Evaluating a select *)

Definition toNull (v : option string) : NullString :=
  match v with
  | Some s => {| String' := s; Valid := true |}
  | None => {| String' := ""; Valid := false |}
  end.

Definition scanRow (r : Row) : ScannedRow :=
  {| s_ptype := ptype r; s_v0 := toNull (v0 r); s_v1 := toNull (v1 r);
     s_v2 := toNull (v2 r); s_v3 := toNull (v3 r); s_v4 := toNull (v4 r);
     s_v5 := toNull (v5 r) |}.

(** [column IN (values)] on a row: a null is in no list. *)
Definition evalEq (p : Eq) (r : Row) : bool :=
  match columnValue (eq_column p) with
  | Some get =>
      match get r with
      | Some v => bool_decide (v ∈ eq_values p)
      | None => false
      end
  | None => false
  end.

Definition evalWhere (ps : list Eq) (r : Row) : bool :=
  forallb (fun p => evalEq p r) ps.

Definition knownColumn (name : string) : bool :=
  match columnValue name with Some _ => true | None => false end.

Definition idLe (r1 r2 : Row) : Prop := (id r1 <= id r2)%Z.
Global Instance idLe_dec : RelDecision idLe.
Proof. intros r1 r2. unfold idLe. apply _. Defined.

(** The ordering of the result: none, or by the primary key. *)
Definition orderRows (orderBy : list string) (rows : list Row) : option (list Row) :=
  match orderBy with
  | [] => Some rows
  | [c] => if bool_decide (c = "id") then Some (merge_sort idLe rows) else None
  | _ => None
  end.

Definition pgSelect (rels : gmap string Relation) (q : SelectBuilder) : result Rows :=
  match sb_from q with
  | None => Err "syntax error: no table"
  | Some t =>
      match foldIdent t with
      | None => Err "syntax error at or near the table name"
      | Some n =>
          match rels !! n with
          | Some (RelTable _ rows) =>
              if forallb (fun p => knownColumn (eq_column p)) (sb_where q) then
                match orderRows (sb_orderBy q) (filter (fun r => evalWhere (sb_where q) r) rows) with
                | Some selected =>
                    if bool_decide (sb_columns q = selectColumns)
                    then Ok {| rows_items := map (fun r => ScanOk (scanRow r)) selected;
                               rows_err := None |}
                    else Ok {| rows_items :=
                                 map (fun _ => ScanErr "cannot scan the row into the destinations")
                                     selected;
                               rows_err := None |}
                | None => Err "ordering outside the model"
                end
              else Err "column does not exist"
          | _ => Err ("relation " +:+ n +:+ " does not exist")
          end
      end
  end.

(** *** The server and its connections *)

Record PgWorld : Type := {
  pg_up : bool;
  pg_relations : gmap string Relation;
  pg_open : list DB;
  pg_next : nat
}.

Definition validConnStr (s : string) : bool :=
  match stripPrefix "postgres://" s, stripPrefix "postgresql://" s with
  | None, None => false
  | _, _ => true
  end.

Definition isCanceled (ctx : Context) : bool :=
  match ctx with
  | Background => false
  | Derived c => c
  end.

Definition pgConnect (ctx : Context) (connStr : string) : State PgWorld (result Conn) :=
  fun w =>
    if negb (validConnStr connStr) then (Err "cannot parse the connection string", w)
    else if negb (pg_up w) then (Err "dial error: connection refused", w)
    else (Ok (pg_next w),
          {| pg_up := pg_up w; pg_relations := pg_relations w;
             pg_open := DBConn (pg_next w) :: pg_open w; pg_next := S (pg_next w) |}).

(** A pool connects lazily: creating it only reads the connection string. *)
Definition pgNewPool (ctx : Context) (connStr : string) : State PgWorld (result Pool) :=
  fun w =>
    if negb (validConnStr connStr) then (Err "cannot parse the connection string", w)
    else (Ok (pg_next w),
          {| pg_up := pg_up w; pg_relations := pg_relations w;
             pg_open := DBPool (pg_next w) :: pg_open w; pg_next := S (pg_next w) |}).

Global Instance DB_eq_dec : EqDecision DB.
Proof. solve_decision. Defined.

(** Why a call on a handle cannot reach the server, if it cannot. *)
Definition unreachable (d : DB) (ctx : Context) (w : PgWorld) : option error :=
  if isCanceled ctx then Some "context canceled"
  else if negb (bool_decide (d ∈ pg_open w)) then Some "closed"
  else if negb (pg_up w) then Some "connection refused"
  else None.

Definition pgPing (d : DB) (ctx : Context) : State PgWorld (option error) :=
  fun w => (unreachable d ctx w, w).

Definition pgClose (d : DB) : State PgWorld unit :=
  fun w => (tt, {| pg_up := pg_up w; pg_relations := pg_relations w;
                   pg_open := filter (fun x => x <> d) (pg_open w);
                   pg_next := pg_next w |}).

Definition pgExec (d : DB) (ctx : Context) (sql : string) : State PgWorld (option error) :=
  fun w =>
    match unreachable d ctx w with
    | Some e => (Some e, w)
    | None =>
        match parseDDL sql with
        | None => (Some "syntax error", w)
        | Some stmt =>
            match execDDL stmt (pg_relations w) with
            | Err e => (Some e, w)
            | Ok rels =>
                (None, {| pg_up := pg_up w; pg_relations := rels;
                          pg_open := pg_open w; pg_next := pg_next w |})
            end
        end
    end.

Definition pgQuery (d : DB) (ctx : Context) (q : SelectBuilder) : State PgWorld (result Rows) :=
  fun w =>
    match unreachable d ctx w with
    | Some e => (Err e, w)
    | None => (pgSelect (pg_relations w) q, w)
    end.

Global Instance PgDriver : Driver PgWorld := {
  pgx_Connect := pgConnect;
  pgxpool_New := pgNewPool;
  conn_Ping := fun c => pgPing (DBConn c);
  pool_Ping := fun p => pgPing (DBPool p);
  conn_Close := fun c _ => pgClose (DBConn c);
  pool_Close := fun p => pgClose (DBPool p);
  db_Exec := pgExec;
  db_Query := pgQuery
}.

(** ** A policy model that records what it is given

    [persist.LoadPolicyArray] belongs to the policy-model library.  The
    theorems hold for any loader; this one keeps every line, in order. *)
Definition recordLine (line : list string) (m : list (list string))
  : list (list string) * option error :=
  (m ++ [line], None).

(** A loader that refuses a line whose first field is empty. *)
Definition strictLine (line : list string) (m : list (list string))
  : list (list string) * option error :=
  match line with
  | EmptyString :: _ => (m, Some "invalid policy line")
  | _ => (m ++ [line], None)
  end.

(** Modelled from the spec: [LoadPolicyCtx] (LoadAll) is defined in a file
    that is not among the sources.  It clears the is-filtered flag, selects
    all rows ordered by the primary key and feeds each line to the loader. *)
Definition specLoadPolicyCtx {W} `{!Driver W} {M}
    (load : list string -> M -> M * option error) (ctx : Context)
  : State (Env W M) Outcome :=
  log EvLock ;;
  setFiltered false ;;
  log EvUnlock ;;
  a <- gets adapter ;;
  match db a with
  | None => ret (Panicked "invalid memory address or nil pointer dereference")
  | Some d =>
      r <- query d ctx (OrderBy ["id"] (From (tableName a) (Select selectColumns (psql a)))) ;;
      match r with
      | Err e => ret (Returned (Some (Errorf "failed to query policies: " e)))
      | Ok rows =>
          err <- scanRows load (rows_items rows) ;;
          log EvRowsClose ;;
          ret (Returned err)
      end
  end.

(** ** Vocabulary of the specification *)

(** A column list of a filter holds of a value: the list is empty (no
    constraint), or the value is there and in the list. *)
Definition holds (vals : list string) (v : option string) : Prop :=
  vals = [] \/ match v with Some s => s ∈ vals | None => False end.

Global Instance holds_dec vals v : Decision (holds vals v).
Proof. unfold holds. destruct v; apply _. Defined.

(** A rule matches a filter iff every non-empty column list contains the
    rule's value in that column. *)
Definition matchesFilter (f : Filter) (r : Row) : Prop :=
  holds (Ptype f) (Some (ptype r)) /\ holds (V0 f) (v0 r) /\ holds (V1 f) (v1 r) /\
  holds (V2 f) (v2 r) /\ holds (V3 f) (v3 r) /\ holds (V4 f) (v4 r) /\
  holds (V5 f) (v5 r).

Global Instance matchesFilter_dec f r : Decision (matchesFilter f r).
Proof. unfold matchesFilter. apply _. Defined.

(** The rows a filter selects from a table, in the order they are returned. *)
Definition selectedRows (f : Filter) (T : list Row) : list Row :=
  merge_sort idLe (filter (matchesFilter f) T).

Definition scannedColumns (r : ScannedRow) : list NullString :=
  [s_v0 r; s_v1 r; s_v2 r; s_v3 r; s_v4 r; s_v5 r].

(** The number of leading columns up to the last one that is set. *)
Fixpoint lastValid (l : list NullString) : nat :=
  match l with
  | [] => 0
  | x :: rest =>
      let n := lastValid rest in
      if Valid x || (0 <? n)%nat then S n else 0
  end.

(** The line as the specification words it: [ptype, v0, v1, ...] cut after
    the last value that is set. *)
Definition truncatedLine (r : ScannedRow) : list string :=
  s_ptype r :: map String' (take (lastValid (scannedColumns r)) (scannedColumns r)).

(** The line made of [ptype] and of the values that are set, in column order. *)
Definition nonNullLine (r : ScannedRow) : list string :=
  s_ptype r :: map String' (filter (fun v => Valid v = true) (scannedColumns r)).

(** No unset column comes before a set one. *)
Fixpoint nullsTrail (l : list NullString) : bool :=
  match l with
  | [] => true
  | x :: rest => if Valid x then nullsTrail rest else forallb (fun v => negb (Valid v)) rest
  end.

(** Readers of the log. *)
Definition loadedLines (tr : list Event) : list (list string) :=
  omap (fun ev => match ev with EvLoadPolicyArray l => Some l | _ => None end) tr.

Definition queriesOf (tr : list Event) : list SelectBuilder :=
  omap (fun ev => match ev with EvQuery _ _ q => Some q | _ => None end) tr.

Definition execsOf (tr : list Event) : list string :=
  omap (fun ev => match ev with EvExec _ sql => Some sql | _ => None end) tr.

Definition closesOf (tr : list Event) : list DB :=
  omap (fun ev => match ev with EvClose d => Some d | _ => None end) tr.

(** Events of a load proper: a query, a loaded line, the closing of the rows. *)
Definition isLoadEvent (ev : Event) : bool :=
  match ev with
  | EvQuery _ _ _ | EvRowsClose | EvLoadPolicyArray _ => true
  | _ => false
  end.

(** The lines of the rows a filter selects. *)
Definition selectedLines (f : Filter) (T : list Row) : list (list string) :=
  map (fun r => policyLine (scanRow r)) (selectedRows f T).

(** Feeding lines to a loader that accepts them all. *)
Definition feed {M} (load : list string -> M -> M * option error)
    (lines : list (list string)) (m : M) : M :=
  foldl (fun acc line => fst (load line acc)) m lines.

(** The state a resolved filter argument leaves before the first query. *)
Definition flagged {W M} (b : bool) (e : Env W M) : Env W M :=
  Build_Env (set_isFiltered b (adapter e)) (model e) (world e)
            (trace e ++ [EvLock; EvSetFiltered b; EvUnlock]).

(** The predicate a column list adds to the query, if any. *)
Definition whereOf (column : string) (vals : list string) : list Eq :=
  if (0 <? length vals)%nat then [{| eq_column := column; eq_values := vals |}] else [].

(** A row whose first value is null and whose second is set. *)
Definition gapRow : Row :=
  {| id := 1; ptype := "p"; v0 := None; v1 := Some "x"; v2 := None;
     v3 := None; v4 := None; v5 := None |}.

(** The adapter holds the handle [d], the server can be reached through it,
    and the table the built select names holds the rows [T]. *)
Definition serves {M} (e : Env PgWorld M) (d : DB) (ctx : Context) (T : list Row) : Prop :=
  db (adapter e) = Some d /\
  unreachable d ctx (world e) = None /\
  exists n cols, foldIdent (tableName (adapter e)) = Some n /\
                 pg_relations (world e) !! n = Some (RelTable cols T).

(** A name without its NUL bytes, and with its quotes doubled. *)
Definition clean (s : string) : string := ReplaceAll s NUL "".
Definition escape (s : string) : string :=
  ReplaceAll s dquote (String dquote (String dquote "")).

(** One identifier between quotes. *)
Definition quoted (s : string) : string :=
  String dquote (escape (clean s) +:+ String dquote "").

Definition startsWithQuote (s : string) : bool :=
  match s with
  | String c _ => Ascii.eqb c dquote
  | EmptyString => false
  end.


Definition isIne (d : DDL) : bool :=
  match d with
  | CreateTable ine _ _ => ine
  | CreateIndex _ ine _ _ _ => ine
  end.

(** The columns of the policy table and the key of its unique index. *)
Definition policyColumns : list ColumnDef :=
  {| col_name := "id"; col_type := "SERIAL"; col_notnull := true; col_primary := true |} ::
  {| col_name := "ptype"; col_type := "VARCHAR(100)"; col_notnull := true;
     col_primary := false |} ::
  map (fun n => {| col_name := n; col_type := "VARCHAR(100)"; col_notnull := false;
                   col_primary := false |})
      ["v0"; "v1"; "v2"; "v3"; "v4"; "v5"].

Definition uniqueKey : list IndexElem :=
  IdxColumn "ptype" ::
  map (fun n => IdxCoalesce n "") ["v0"; "v1"; "v2"; "v3"; "v4"; "v5"].

(** The statements of the bootstrap of an adapter, in the order they are
    to be executed. *)
Definition bootstrapStatements (a : PgxAdapter) : list string :=
  createTableSQL (Sanitize [tableName a]) ::
  createUniqueIndexSQL (Sanitize ["idx_" +:+ tableName a]) (Sanitize [tableName a]) ::
  map (createIndexSQL (tableName a)) (indexes a).



(** A statement that, if it reads at all, reads as a create-if-not-exists. *)
Definition ineSql (sql : string) : Prop :=
  forall d, parseDDL sql = Some d -> isIne d = true.

(** A statement that has nothing left to do in a world, nor in any world
    with more relations. *)
Definition settled (sql : string) (w : PgWorld) : Prop :=
  forall d w', pg_relations w ⊆ pg_relations w' ->
               unreachable d Background w' = None ->
               pgExec d Background sql w' = (None, w').

(** The adapter a constructor starts from, before the options. *)
Definition connAdapter (c : Conn) : PgxAdapter :=
  {| db := Some (DBConn c); conn := Some c; pool := None;
     tableName := defaultTableName; database := defaultDatabase;
     psql := Dollar; isFiltered := false; indexes := [];
     usePool := false |}.

Definition poolAdapter (p : Pool) : PgxAdapter :=
  {| db := Some (DBPool p); conn := None; pool := Some p;
     tableName := defaultTableName; database := defaultDatabase;
     psql := Dollar; isFiltered := false; indexes := [];
     usePool := false |}.

(** The options of an adapter on the table [t] with the secondary indexes
    [reqs] requested in this order. *)
Definition tableOptions (t : string) (reqs : list (list string)) : list Option :=
  WithTableName t :: map WithIndex reqs.

Definition nonEmpty (cols : list string) : Prop := cols <> [].
Global Instance nonEmpty_dec cols : Decision (nonEmpty cols).
Proof. unfold nonEmpty. apply _. Defined.

(** The four options of the package, as data. *)
Inductive Setting : Type :=
| SetTableName (name : string)
| SetDatabaseName (name : string)
| AddIndex (columns : list string)
| UsePool.

Definition optionOf (x : Setting) : Option :=
  match x with
  | SetTableName name => WithTableName name
  | SetDatabaseName name => WithDatabaseName name
  | AddIndex columns => WithIndex columns
  | UsePool => WithPool
  end.

Definition tablesOf (l : list Setting) : list string :=
  omap (fun x => match x with SetTableName name => Some name | _ => None end) l.
Definition databasesOf (l : list Setting) : list string :=
  omap (fun x => match x with SetDatabaseName name => Some name | _ => None end) l.
Definition requestsOf (l : list Setting) : list (list string) :=
  omap (fun x => match x with AddIndex columns => Some columns | _ => None end) l.
Definition wantsPool (l : list Setting) : bool :=
  existsb (fun x => match x with UsePool => true | _ => false end) l.

(** The adapter [a] after the settings [l]: the last table name and the last
    database name given win, the index requests that have columns pile up in
    order, and the pool mode is on once asked for. *)
Definition configured (l : list Setting) (a : PgxAdapter) : PgxAdapter :=
  {| db := db a; conn := conn a; pool := pool a;
     tableName := default (tableName a) (last (tablesOf l));
     database := default (database a) (last (databasesOf l));
     psql := psql a; isFiltered := isFiltered a;
     indexes := indexes a ++ filter nonEmpty (requestsOf l);
     usePool := usePool a || wantsPool l |}.

(** The settings as options of the earlier revision, which has no option
    for the pool. *)
Definition earlierOptions (l : list Setting) : list Earlier.Option :=
  omap (fun x => match x with
                 | SetTableName name => Some (Earlier.WithTableName name)
                 | SetDatabaseName name => Some (Earlier.WithDatabaseName name)
                 | AddIndex columns => Some (Earlier.WithIndex columns)
                 | UsePool => None
                 end) l.

(** An adapter of the earlier revision read as one of the later: the
    connection is also the [DB], there is no pool, and the pool was not
    asked for. *)
Definition upgrade (a : Earlier.PgxAdapter) : PgxAdapter :=
  {| db := match Earlier.conn a with Some c => Some (DBConn c) | None => None end;
     conn := Earlier.conn a; pool := None;
     tableName := Earlier.tableName a; database := Earlier.database a;
     psql := Earlier.psql a; isFiltered := Earlier.isFiltered a;
     indexes := Earlier.indexes a; usePool := false |}.

Definition upgradeResult (r : Earlier.NewResult) : NewResult :=
  match r with
  | Earlier.NewReturned a err => NewReturned (upgrade <$> a) err
  | Earlier.NewPanicked msg => NewPanicked msg
  end.


(** How many result sets a log closes. *)
Definition rowsClosed (tr : list Event) : nat :=
  length (omap (fun ev => match ev with EvRowsClose => Some () | _ => None end) tr).

(** A loader that takes all of the given lines, one after the other. *)
Fixpoint accepted {M} (load : list string -> M -> M * option error)
    (lines : list (list string)) (m : M) : Prop :=
  match lines with
  | [] => True
  | line :: rest => snd (load line m) = None /\ accepted load rest (fst (load line m))
  end.

(** A filter none of whose lists has a value. *)
Definition unconstrained (f : Filter) : Prop :=
  Ptype f = [] /\ V0 f = [] /\ V1 f = [] /\ V2 f = [] /\ V3 f = [] /\ V4 f = [] /\
  V5 f = [].

(** The columns an index may be asked on: [ptype] and [v0 .. v5]. *)
Definition validColumn (c : string) : Prop := c ∈ selectColumns.
Global Instance validColumn_dec c : Decision (validColumn c).
Proof. unfold validColumn. apply _. Defined.

Fixpoint underscoreFree (s : string) : bool :=
  match s with
  | EmptyString => true
  | String c s' => negb (Ascii.eqb c "_"%char) && underscoreFree s'
  end.




(** A column name that is not empty and has no underscore in it. *)
Definition plainName (c : string) : Prop := c <> "" /\ underscoreFree c = true.

(** A text that is empty or begins with an underscore. *)
Definition underscoreLed (s : string) : bool :=
  match s with
  | EmptyString => true
  | String c _ => Ascii.eqb c "_"%char
  end.

(** A run that only loads: the adapter object is left as it was and the log
    grows by events of the load alone. *)
Definition loadOnly {W M} (e e' : Env W M) : Prop :=
  adapter e' = adapter e /\
  exists rest, trace e' = trace e ++ rest /\ Forall (fun ev => isLoadEvent ev = true) rest.

(** ** Sample data *)

Definition aliceRow : Row :=
  {| id := 2; ptype := "p"; v0 := Some "alice"; v1 := Some "data1"; v2 := Some "read";
     v3 := None; v4 := None; v5 := None |}.
Definition bobRow : Row :=
  {| id := 1; ptype := "p"; v0 := Some "bob"; v1 := Some "data1"; v2 := Some "write";
     v3 := None; v4 := None; v5 := None |}.
Definition groupRow : Row :=
  {| id := 3; ptype := "g"; v0 := Some "alice"; v1 := Some "admin"; v2 := None;
     v3 := None; v4 := None; v5 := None |}.
Definition blankRow : Row :=
  {| id := 4; ptype := ""; v0 := Some "carol"; v1 := None; v2 := None;
     v3 := None; v4 := None; v5 := None |}.

Definition demoTable : list Row := [aliceRow; bobRow; groupRow; blankRow].

Definition demoWorld : PgWorld :=
  {| pg_up := true;
     pg_relations := {[ "casbin_rule" := RelTable policyColumns demoTable ]};
     pg_open := [DBConn 0];
     pg_next := 1 |}.

Definition demoEnv : Env PgWorld (list (list string)) :=
  Build_Env (connAdapter 0) [] demoWorld [].

Definition noFilter : Filter :=
  {| Ptype := []; V0 := []; V1 := []; V2 := []; V3 := []; V4 := []; V5 := [] |}.
Definition aliceFilter : Filter :=
  {| Ptype := ["p"]; V0 := ["alice"]; V1 := []; V2 := []; V3 := []; V4 := []; V5 := [] |}.
Definition bobFilter : Filter :=
  {| Ptype := ["p"]; V0 := ["bob"]; V1 := []; V2 := []; V3 := []; V4 := []; V5 := [] |}.
Definition data1Filter : Filter :=
  {| Ptype := []; V0 := []; V1 := ["data1"]; V2 := []; V3 := []; V4 := []; V5 := [] |}.
Definition blankFilter : Filter :=
  {| Ptype := [""]; V0 := []; V1 := []; V2 := []; V3 := []; V4 := []; V5 := [] |}.

(** The filtered load of the examples: a recording model (or the strict
    one), with the unfiltered load of the specification. *)
Definition demoLoad : Context -> GoAny -> State (Env PgWorld (list (list string))) Outcome :=
  LoadFilteredPolicyCtx recordLine (specLoadPolicyCtx recordLine).
Definition strictLoad : Context -> GoAny -> State (Env PgWorld (list (list string))) Outcome :=
  LoadFilteredPolicyCtx strictLine (specLoadPolicyCtx strictLine).

(** A server with an empty database and two open connections. *)
Definition freshSys : Sys PgWorld :=
  Build_Sys {| pg_up := true; pg_relations := ∅; pg_open := [DBConn 0; DBConn 1];
               pg_next := 2 |} [].

(** A server that does not answer. *)
Definition downSys : Sys PgWorld :=
  Build_Sys {| pg_up := false; pg_relations := ∅; pg_open := []; pg_next := 0 |} [].

Definition demoRequests : list (list string) := [["v0"]; []; ["v1"; "v2"]].

(** Settings that rename the table and the database, ask for the pool and
    for two indexes, one of them without columns. *)
Definition demoSettings : list Setting :=
  [SetTableName "rules"; AddIndex ["v0"]; UsePool; SetDatabaseName "authz"; AddIndex []].

(** Settings both revisions know. *)
Definition plainSettings : list Setting :=
  [SetTableName "rules"; AddIndex ["v0"]; SetDatabaseName "authz"].

(** What the server answers to the unconstrained query on the sample table. *)
Definition demoRows : Rows :=
  {| rows_items := map (fun r => ScanOk (scanRow r)) [bobRow; aliceRow; groupRow; blankRow];
     rows_err := None |}.

(** * Facts about the filtered load *)

Ltac run := unfold bind, ret, gets, modify, log, setFiltered, onWorld in *; simpl in *.

Section AdapterFacts.
Context {W : Type} `{!Driver W} {M : Type}.
Variable LoadPolicyArray : list string -> M -> M * option error.
Variable LoadPolicyCtx : Context -> State (Env W M) Outcome.

Lemma loadOnly_refl (e : Env W M) : loadOnly e e.
Proof. split; [done|]. exists []. by rewrite app_nil_r. Qed.

Lemma loadOnly_trans (e1 e2 e3 : Env W M) :
  loadOnly e1 e2 -> loadOnly e2 e3 -> loadOnly e1 e3.
Proof.
  intros [Ha (r1 & Ht1 & Hf1)] [Hb (r2 & Ht2 & Hf2)]. split; [congruence|].
  exists (r1 ++ r2). rewrite Ht2, Ht1, app_assoc. split; [done|].
  by apply Forall_app.
Qed.

Lemma loadOnly_step (e : Env W M) m w ev :
  isLoadEvent ev = true ->
  loadOnly e (Build_Env (adapter e) m w (trace e ++ [ev])).
Proof. intros Hev. split; [done|]. exists [ev]. split; [done|]. by constructor. Qed.

Lemma loadLine_eq line (e : Env W M) :
  loadLine LoadPolicyArray line e =
    (snd (LoadPolicyArray line (model e)),
     Build_Env (adapter e) (fst (LoadPolicyArray line (model e))) (world e)
               (trace e ++ [EvLoadPolicyArray line])).
Proof. unfold loadLine. run. by destruct (LoadPolicyArray line (model e)). Qed.

Lemma query_eq d ctx stmt (e : Env W M) :
  query d ctx stmt e =
    (fst (db_Query d ctx stmt (world e)),
     Build_Env (adapter e) (model e) (snd (db_Query d ctx stmt (world e)))
               (trace e ++ [EvQuery d ctx stmt])).
Proof. unfold query. run. by destruct (db_Query d ctx stmt (world e)). Qed.

Lemma scanRows_loadOnly items (e e' : Env W M) err :
  scanRows LoadPolicyArray items e = (err, e') -> loadOnly e e'.
Proof.
  revert e. induction items as [|[r|x] items IH]; intros e Hrun; simpl in Hrun.
  - injection Hrun as <- <-. apply loadOnly_refl.
  - unfold bind in Hrun. rewrite loadLine_eq in Hrun.
    set (e1 := Build_Env _ _ _ _) in Hrun.
    assert (loadOnly e e1) as Hstep by (by apply loadOnly_step).
    eapply loadOnly_trans; [exact Hstep|].
    destruct (snd (LoadPolicyArray (policyLine r) (model e))).
    + injection Hrun as <- <-. apply loadOnly_refl.
    + by apply IH.
  - injection Hrun as <- <-. apply loadOnly_refl.
Qed.

Lemma loadFilteredPolicies_loadOnly ctx f (e e' : Env W M) o :
  loadFilteredPolicies LoadPolicyArray ctx f e = (o, e') -> loadOnly e e'.
Proof.
  unfold loadFilteredPolicies, bind at 1, gets. intros Hrun.
  destruct (ToSql _) as [stmt|x].
  2: { injection Hrun as <- <-. apply loadOnly_refl. }
  destruct (db (adapter e)) as [d|].
  2: { injection Hrun as <- <-. apply loadOnly_refl. }
  unfold bind at 1 in Hrun. rewrite query_eq in Hrun.
  set (e0 := Build_Env _ _ _ _) in Hrun.
  assert (loadOnly e e0) as Hstep by (by apply loadOnly_step).
  eapply loadOnly_trans; [exact Hstep|].
  destruct (fst (db_Query d ctx stmt (world e))) as [rows|x].
  2: { injection Hrun as <- <-. apply loadOnly_refl. }
  unfold bind at 1 in Hrun.
  destruct (scanRows _ _ _) as [err e1] eqn:Hscan.
  apply scanRows_loadOnly in Hscan.
  eapply loadOnly_trans; [exact Hscan|].
  destruct err as [x|]; [|destruct (rows_err rows)]; run;
    injection Hrun as <- <-; by apply loadOnly_step.
Qed.

Lemma loadEach_loadOnly ctx filters (e e' : Env W M) o :
  loadEach LoadPolicyArray ctx filters e = (o, e') -> loadOnly e e'.
Proof.
  revert e. induction filters as [|f filters IH]; intros e Hrun; simpl in Hrun.
  - injection Hrun as <- <-. apply loadOnly_refl.
  - unfold bind in Hrun.
    destruct (loadFilteredPolicies _ _ _ _) as [o1 e1] eqn:Hone.
    apply loadFilteredPolicies_loadOnly in Hone.
    eapply loadOnly_trans; [exact Hone|].
    destruct o1 as [[x|]|msg].
    + injection Hrun as <- <-. apply loadOnly_refl.
    + by apply IH.
    + injection Hrun as <- <-. apply loadOnly_refl.
Qed.

(** A resolved filter argument: the flag is written, then the filters run. *)
Lemma LoadFilteredPolicyCtx_resolved ctx filter filters (e : Env W M) :
  typeSwitch filter = Resolved filters ->
  LoadFilteredPolicyCtx LoadPolicyArray LoadPolicyCtx ctx filter e =
    loadEach LoadPolicyArray ctx filters (flagged true e).
Proof.
  intros Hsw. unfold LoadFilteredPolicyCtx, flagged.
  destruct filter as [|f|[f|]|f|[f|]|f|t]; simpl in Hsw; try discriminate;
    injection Hsw as <-; run; by rewrite <- !app_assoc.
Qed.

End AdapterFacts.

(** ** The line of a row *)

Lemma policyLine_nonNull (r : ScannedRow) : policyLine r = nonNullLine r.
Proof.
  unfold policyLine, nonNullLine, scannedColumns.
  destruct r as [p [s0 [|]] [s1 [|]] [s2 [|]] [s3 [|]] [s4 [|]] [s5 [|]]]; reflexivity.
Qed.

Lemma policyLine_truncated (r : ScannedRow) :
  nullsTrail (scannedColumns r) = true -> policyLine r = truncatedLine r.
Proof.
  unfold policyLine, truncatedLine, scannedColumns.
  destruct r as [p [s0 [|]] [s1 [|]] [s2 [|]] [s3 [|]] [s4 [|]] [s5 [|]]];
    simpl; intros Htrail; try discriminate; reflexivity.
Qed.

Lemma policyLine_scanRow (row : Row) :
  policyLine (scanRow row) =
    ptype row :: omap (fun v => v) [v0 row; v1 row; v2 row; v3 row; v4 row; v5 row].
Proof.
  unfold policyLine, scanRow. simpl.
  destruct (v0 row), (v1 row), (v2 row), (v3 row), (v4 row), (v5 row); reflexivity.
Qed.

(** C2, as stated, fails: for the row [(p, NULL, x)] the emitted line is
    [[p; x]], whereas [[ptype, v0, v1, ...]] cut after the last set value is
    the three-field line that keeps the unset [v0] in its place. *)
Lemma policyLine_gap_not_truncated :
  policyLine (scanRow gapRow) = ["p"; "x"] /\
  truncatedLine (scanRow gapRow) = ["p"; ""; "x"] /\
  ~ (forall r : ScannedRow, policyLine r = truncatedLine r).
Proof.
  split; [reflexivity|]. split; [reflexivity|].
  intros Hall. specialize (Hall (scanRow gapRow)). discriminate Hall.
Qed.

Section LineFacts.
Context {W : Type} `{!Driver W} {M : Type}.
Variable LoadPolicyArray : list string -> M -> M * option error.

(** C2, amended: for every scanned row the line given to the model is
    [ptype] followed by the values that are set, in column order, so an
    unset column never contributes a field and nulls are read without
    error; whenever no unset column precedes a set one this is the line
    [[ptype, v0, v1, ...]] cut after the last set value, and a rule with
    only [v0] set yields the two-field line. *)
Theorem scanned_row_line (r : ScannedRow) (e : Env W M) :
  loadedLines (trace (snd (scanRows LoadPolicyArray [ScanOk r] e))) =
    loadedLines (trace e) ++ [policyLine r] /\
  policyLine r = nonNullLine r /\
  (nullsTrail (scannedColumns r) = true -> policyLine r = truncatedLine r) /\
  (forall row : Row,
      policyLine (scanRow row) =
        ptype row :: omap (fun v => v) [v0 row; v1 row; v2 row; v3 row; v4 row; v5 row]) /\
  (forall p x, policyLine (scanRow {| id := 0; ptype := p; v0 := Some x; v1 := None;
                                      v2 := None; v3 := None; v4 := None; v5 := None |})
               = [p; x]).
Proof.
  split; [|split; [apply policyLine_nonNull|split; [apply policyLine_truncated|split]]].
  - simpl. unfold bind. rewrite loadLine_eq.
    destruct (snd (LoadPolicyArray (policyLine r) (model e))); simpl;
      unfold loadedLines; rewrite omap_app; reflexivity.
  - apply policyLine_scanRow.
  - reflexivity.
Qed.

End LineFacts.

(** ** The filter argument and the flag *)

Section FlagFacts.
Context {W : Type} `{!Driver W} {M : Type}.
Variable LoadPolicyArray : list string -> M -> M * option error.
Variable LoadPolicyCtx : Context -> State (Env W M) Outcome.

Lemma IsFilteredCtx_value ctx (e : Env W M) :
  fst (IsFilteredCtx ctx e) = isFiltered (adapter e).
Proof. reflexivity. Qed.

Lemma trace_grows (e : Env W M) a m w l :
  l <> [] -> loadOnly (Build_Env a m w (trace e ++ l)) e -> False.
Proof.
  intros Hl [_ (rest & Ht & _)]. simpl in Ht.
  apply (f_equal length) in Ht. rewrite !length_app in Ht.
  destruct l; [done|]. simpl in Ht. lia.
Qed.

(** C4: a filter argument that is not nil is accepted exactly when it is a
    [Filter], a pointer to one, a [BatchFilter], a pointer to one, or a
    slice of [Filter]; an argument of any other type is answered with the
    error "invalid filter type" in an unchanged state (no query has run,
    no line was loaded, the flag is as before), and no accepted argument
    is answered that way.  The accepted forms resolve to the list of
    filters they hold. *)
Theorem filter_type_check ctx (e : Env W M) :
  (forall typeName,
      LoadFilteredPolicyCtx LoadPolicyArray LoadPolicyCtx ctx (AnyOther typeName) e =
        (Returned (Some "invalid filter type"), e)) /\
  (forall filter,
      filter <> AnyNil ->
      (LoadFilteredPolicyCtx LoadPolicyArray LoadPolicyCtx ctx filter e =
         (Returned (Some "invalid filter type"), e)
       <-> exists typeName, filter = AnyOther typeName)) /\
  (forall f, typeSwitch (AnyFilter f) = Resolved [f]) /\
  (forall f, typeSwitch (AnyFilterPtr (Some f)) = Resolved [f]) /\
  (forall b, typeSwitch (AnyBatchFilter b) = Resolved (Filters b)) /\
  (forall b, typeSwitch (AnyBatchFilterPtr (Some b)) = Resolved (Filters b)) /\
  (forall fs, typeSwitch (AnyFilterSlice fs) = Resolved fs) /\
  (forall filter filters,
      typeSwitch filter = Resolved filters ->
      LoadFilteredPolicyCtx LoadPolicyArray LoadPolicyCtx ctx filter e =
        loadEach LoadPolicyArray ctx filters (flagged true e)).
Proof.
  split; [reflexivity|]. split.
  2: { repeat (split; [reflexivity|]). intros filter filters.
       apply LoadFilteredPolicyCtx_resolved. }
  intros filter Hnil. split.
  - intros Hrun. destruct (typeSwitch filter) as [filters| |] eqn:Hsw.
    + rewrite (LoadFilteredPolicyCtx_resolved _ _ _ _ filters) in Hrun by done.
      apply loadEach_loadOnly in Hrun. exfalso.
      unfold flagged in Hrun. by eapply trace_grows in Hrun.
    + destruct filter as [|f|[f|]|f|[f|]|f|t]; try discriminate; [done|by eexists].
    + destruct filter as [|f|[f|]|f|[f|]|f|t]; discriminate.
  - intros [t ->]. reflexivity.
Qed.

(** C5: when the filter argument resolves to a list of filters, the flag
    is written to true (under the lock) before anything else happens: the
    log of the call starts with lock, write true, unlock, and everything
    after, every query among it, is an event of the load proper, which
    never writes the flag.  Whatever the call does (it may fail at a later
    filter or panic), the flag is true afterwards and [IsFiltered] and
    [IsFilteredCtx] return true. *)
Theorem flag_set_before_queries ctx ctx' filter filters (e e' : Env W M) o :
  typeSwitch filter = Resolved filters ->
  LoadFilteredPolicyCtx LoadPolicyArray LoadPolicyCtx ctx filter e = (o, e') ->
  (exists rest,
      trace e' = trace e ++ [EvLock; EvSetFiltered true; EvUnlock] ++ rest /\
      Forall (fun ev => isLoadEvent ev = true) rest /\
      queriesOf (trace e') = queriesOf (trace e) ++ queriesOf rest) /\
  isFiltered (adapter e') = true /\
  fst (IsFilteredCtx ctx' e') = true /\
  fst (IsFiltered e') = true.
Proof.
  intros Hsw Hrun.
  rewrite (LoadFilteredPolicyCtx_resolved _ _ _ _ filters) in Hrun by done.
  apply loadEach_loadOnly in Hrun. destruct Hrun as [Ha (rest & Ht & Hrest)].
  simpl in Ha, Ht.
  assert (isFiltered (adapter e') = true) as Hflag by (by rewrite Ha).
  split; [|unfold IsFiltered; by rewrite !IsFilteredCtx_value].
  exists rest. rewrite Ht, <- app_assoc. split; [done|]. split; [done|].
  unfold queriesOf. by rewrite !omap_app.
Qed.

(** C10: the variants without a context are the context variants at the
    background context, and [IsFilteredCtx] does not look at its context. *)
Theorem background_variants filter (e : Env W M) :
  LoadFilteredPolicy LoadPolicyArray LoadPolicyCtx filter e =
    LoadFilteredPolicyCtx LoadPolicyArray LoadPolicyCtx Background filter e /\
  IsFiltered e = IsFilteredCtx Background e /\
  (forall ctx, IsFilteredCtx ctx e = IsFilteredCtx Background e) /\
  fst (IsFiltered e) = isFiltered (adapter e).
Proof. repeat split. Qed.

End FlagFacts.

(** C6: with a nil filter the call clears the flag (under the lock) and then
    is the unfiltered load, whatever that load is; with the unfiltered load
    of the specification the flag is false when the call is over. *)
Theorem nil_filter_delegates {W : Type} `{!Driver W} {M : Type}
    (load : list string -> M -> M * option error)
    (LoadAll : Context -> State (Env W M) Outcome) (ctx : Context) (e : Env W M) :
  LoadFilteredPolicyCtx load LoadAll ctx AnyNil e = LoadAll ctx (flagged false e) /\
  LoadFilteredPolicy load LoadAll AnyNil e = LoadAll Background (flagged false e) /\
  isFiltered (adapter (flagged false e)) = false /\
  trace (flagged false e) = trace e ++ [EvLock; EvSetFiltered false; EvUnlock] /\
  isFiltered (adapter (snd (LoadFilteredPolicyCtx load (specLoadPolicyCtx load) ctx AnyNil e)))
    = false.
Proof.
  assert (forall L c, LoadFilteredPolicyCtx load L c AnyNil e = L c (flagged false e)) as Heq.
  { intros L c. unfold LoadFilteredPolicyCtx, flagged. run. by rewrite <- !app_assoc. }
  split; [apply Heq|]. split; [apply Heq|]. split; [done|]. split; [done|].
  rewrite Heq. unfold specLoadPolicyCtx. run.
  destruct (db (adapter e)) as [d|]; [|done].
  rewrite query_eq. destruct (fst (db_Query _ _ _ _)) as [rows|x]; [|done].
  destruct (scanRows _ _ _) as [err e1] eqn:Hscan.
  apply scanRows_loadOnly in Hscan. destruct Hscan as [Ha _]. simpl in *.
  by rewrite Ha.
Qed.

(** * The filtered load against the reference server *)

Lemma idLe_total : Total idLe.
Proof. intros r1 r2. unfold idLe. lia. Qed.

Lemma sb_where_Where p (c : bool) q :
  sb_where (if c then Where p q else q) = sb_where q ++ (if c then [p] else []).
Proof. destruct c; simpl; by rewrite ?app_nil_r. Qed.

Lemma sb_rest_Where p (c : bool) q :
  sb_from (if c then Where p q else q) = sb_from q /\
  sb_columns (if c then Where p q else q) = sb_columns q /\
  sb_orderBy (if c then Where p q else q) = sb_orderBy q.
Proof. by destruct c. Qed.

Lemma filterQuery_where a f :
  sb_where (filterQuery a f) =
    whereOf "ptype" (Ptype f) ++ whereOf "v0" (V0 f) ++ whereOf "v1" (V1 f) ++
    whereOf "v2" (V2 f) ++ whereOf "v3" (V3 f) ++ whereOf "v4" (V4 f) ++
    whereOf "v5" (V5 f).
Proof.
  unfold filterQuery, whereOf. cbv zeta. rewrite !sb_where_Where. simpl.
  by rewrite <- !app_assoc.
Qed.

Lemma filterQuery_shape a f :
  sb_from (filterQuery a f) = Some (tableName a) /\
  sb_columns (filterQuery a f) = selectColumns /\
  sb_orderBy (filterQuery a f) = ["id"].
Proof.
  unfold filterQuery. cbv zeta.
  repeat match goal with
         | |- context [if ?c then Where ?p ?q else ?q] =>
             destruct (sb_rest_Where p c q) as (-> & -> & ->)
         end.
  done.
Qed.

Lemma evalWhere_app ps qs r : evalWhere (ps ++ qs) r = evalWhere ps r && evalWhere qs r.
Proof. unfold evalWhere. apply forallb_app. Qed.

Lemma evalWhere_whereOf column vals get r :
  columnValue column = Some get ->
  evalWhere (whereOf column vals) r = true <-> holds vals (get r).
Proof.
  intros Hcol. unfold whereOf, holds, evalWhere.
  destruct vals as [|x vals]; simpl.
  - split; [by left|done].
  - unfold evalEq. simpl. rewrite Hcol, andb_true_r.
    destruct (get r) as [v|].
    + rewrite bool_decide_eq_true. split; [by right|]. by intros [|].
    + split; [done|]. by intros [|].
Qed.

Lemma evalWhere_filterQuery a f r :
  evalWhere (sb_where (filterQuery a f)) r = true <-> matchesFilter f r.
Proof.
  rewrite filterQuery_where, !evalWhere_app, !andb_true_iff. unfold matchesFilter.
  rewrite (evalWhere_whereOf "ptype" _ (fun r => Some (ptype r))) by done.
  rewrite (evalWhere_whereOf "v0" _ v0), (evalWhere_whereOf "v1" _ v1),
    (evalWhere_whereOf "v2" _ v2), (evalWhere_whereOf "v3" _ v3),
    (evalWhere_whereOf "v4" _ v4), (evalWhere_whereOf "v5" _ v5) by done.
  done.
Qed.

Lemma knownColumn_filterQuery a f :
  forallb (fun p => knownColumn (eq_column p)) (sb_where (filterQuery a f)) = true.
Proof.
  rewrite filterQuery_where. unfold whereOf.
  destruct (0 <? length (Ptype f))%nat, (0 <? length (V0 f))%nat,
    (0 <? length (V1 f))%nat, (0 <? length (V2 f))%nat, (0 <? length (V3 f))%nat,
    (0 <? length (V4 f))%nat, (0 <? length (V5 f))%nat; reflexivity.
Qed.

(** What the server answers to the query of a filter. *)
Lemma pgSelect_filterQuery rels a f n cols T :
  foldIdent (tableName a) = Some n ->
  rels !! n = Some (RelTable cols T) ->
  pgSelect rels (filterQuery a f) =
    Ok {| rows_items := map (fun r => ScanOk (scanRow r)) (selectedRows f T);
          rows_err := None |}.
Proof.
  intros Hfold Hrel. unfold pgSelect.
  destruct (filterQuery_shape a f) as (-> & -> & ->).
  rewrite Hfold, Hrel, knownColumn_filterQuery. simpl.
  unfold selectedRows. do 4 f_equal.
  apply list_filter_iff. intros r. rewrite <- evalWhere_filterQuery.
  apply Is_true_true.
Qed.

Section PgFacts.
Context {M : Type}.
Variable LoadPolicyArray : list string -> M -> M * option error.
Variable LoadPolicyCtx : Context -> State (Env PgWorld M) Outcome.

Lemma loadedLines_app t1 t2 : loadedLines (t1 ++ t2) = loadedLines t1 ++ loadedLines t2.
Proof. apply omap_app. Qed.

Lemma queriesOf_app t1 t2 : queriesOf (t1 ++ t2) = queriesOf t1 ++ queriesOf t2.
Proof. apply omap_app. Qed.

Lemma selectedRows_elem f T r :
  r ∈ selectedRows f T <-> r ∈ T /\ matchesFilter f r.
Proof.
  unfold selectedRows. rewrite merge_sort_Permutation, list_elem_of_filter. tauto.
Qed.

Lemma scanRows_accepted rows (e e' : Env PgWorld M) :
  scanRows LoadPolicyArray (map ScanOk rows) e = (None, e') ->
  adapter e' = adapter e /\ world e' = world e /\
  loadedLines (trace e') = loadedLines (trace e) ++ map policyLine rows /\
  queriesOf (trace e') = queriesOf (trace e) /\
  model e' = feed LoadPolicyArray (map policyLine rows) (model e).
Proof.
  revert e. induction rows as [|r rows IH]; intros e Hrun; simpl in Hrun.
  - injection Hrun as <-. by rewrite app_nil_r.
  - unfold bind in Hrun. rewrite loadLine_eq in Hrun.
    destruct (snd (LoadPolicyArray (policyLine r) (model e))); [discriminate|].
    apply IH in Hrun. destruct Hrun as (-> & -> & -> & -> & ->). simpl.
    rewrite loadedLines_app, queriesOf_app. simpl.
    by rewrite app_nil_r, <- app_assoc.
Qed.

Lemma loadFilteredPolicies_pg ctx f (e : Env PgWorld M) d T :
  serves e d ctx T ->
  loadFilteredPolicies LoadPolicyArray ctx f e =
    (let (err, e1) :=
       scanRows LoadPolicyArray (map ScanOk (map scanRow (selectedRows f T)))
         (Build_Env (adapter e) (model e) (world e)
                    (trace e ++ [EvQuery d ctx (filterQuery (adapter e) f)])) in
     (Returned err,
      Build_Env (adapter e1) (model e1) (world e1) (trace e1 ++ [EvRowsClose]))).
Proof.
  intros (Hdb & Hreach & n & cols & Hfold & Hrel).
  unfold loadFilteredPolicies, bind at 1, gets.
  assert (ToSql (filterQuery (adapter e) f) = Ok (filterQuery (adapter e) f)) as ->.
  { unfold ToSql. by destruct (filterQuery_shape (adapter e) f) as (_ & -> & _). }
  rewrite Hdb. unfold bind at 1. rewrite query_eq. simpl. unfold pgQuery.
  rewrite Hreach. simpl. rewrite (pgSelect_filterQuery _ _ _ n cols T) by done.
  simpl. unfold bind at 1. rewrite map_map.
  destruct (scanRows _ _ _) as [[x|] e1]; reflexivity.
Qed.

(** C1: against a server that holds the adapter's table with the rows
    [T], the query of a filter returns the rows [selectedRows f T]: they
    are the rows of [T] that match the filter (each as often as it is in
    [T]), a row matching iff every non-empty column list contains its
    value, and they come ordered by [id] ascending; these rows, in this
    order, are what the filtered load scans and hands to the model. *)
Theorem filtered_load_selects_matching ctx f (e : Env PgWorld M) d T :
  serves e d ctx T ->
  fst (db_Query d ctx (filterQuery (adapter e) f) (world e)) =
    Ok {| rows_items := map (fun r => ScanOk (scanRow r)) (selectedRows f T);
          rows_err := None |} /\
  selectedRows f T ≡ₚ filter (matchesFilter f) T /\
  (forall r, r ∈ selectedRows f T <-> r ∈ T /\ matchesFilter f r) /\
  Sorted idLe (selectedRows f T) /\
  (forall r,
      matchesFilter f r <->
      (Ptype f = [] \/ ptype r ∈ Ptype f) /\
      (V0 f = [] \/ exists s, v0 r = Some s /\ s ∈ V0 f) /\
      (V1 f = [] \/ exists s, v1 r = Some s /\ s ∈ V1 f) /\
      (V2 f = [] \/ exists s, v2 r = Some s /\ s ∈ V2 f) /\
      (V3 f = [] \/ exists s, v3 r = Some s /\ s ∈ V3 f) /\
      (V4 f = [] \/ exists s, v4 r = Some s /\ s ∈ V4 f) /\
      (V5 f = [] \/ exists s, v5 r = Some s /\ s ∈ V5 f)) /\
  loadFilteredPolicies LoadPolicyArray ctx f e =
    (let (err, e1) :=
       scanRows LoadPolicyArray (map ScanOk (map scanRow (selectedRows f T)))
         (Build_Env (adapter e) (model e) (world e)
                    (trace e ++ [EvQuery d ctx (filterQuery (adapter e) f)])) in
     (Returned err,
      Build_Env (adapter e1) (model e1) (world e1) (trace e1 ++ [EvRowsClose]))).
Proof.
  intros Hserves. split.
  { destruct Hserves as (Hdb & Hreach & n & cols & Hfold & Hrel).
    simpl. unfold pgQuery. rewrite Hreach. simpl.
    by apply (pgSelect_filterQuery _ _ _ n cols T). }
  split; [apply merge_sort_Permutation|].
  split; [apply selectedRows_elem|].
  split; [apply (@Sorted_merge_sort _ idLe _ idLe_total)|].
  split; [|by apply loadFilteredPolicies_pg].
  intros r. unfold matchesFilter, holds.
  assert (forall (v : option string) (l : list string),
             match v with Some s => s ∈ l | None => False end
             <-> exists s, v = Some s /\ s ∈ l) as Hopt.
  { intros [s|] l; split.
    - intros Hin. by exists s.
    - by intros (s' & [= ->] & Hin).
    - done.
    - by intros (s' & Hs & _). }
  by rewrite !Hopt.
Qed.

Lemma loadEach_pg ctx filters (e e' : Env PgWorld M) d T :
  serves e d ctx T ->
  loadEach LoadPolicyArray ctx filters e = (Returned None, e') ->
  adapter e' = adapter e /\ world e' = world e /\
  queriesOf (trace e') = queriesOf (trace e) ++ map (filterQuery (adapter e)) filters /\
  loadedLines (trace e') =
    loadedLines (trace e) ++ concat (map (fun f => selectedLines f T) filters) /\
  model e' = feed LoadPolicyArray (concat (map (fun f => selectedLines f T) filters))
                  (model e).
Proof.
  revert e. induction filters as [|f filters IH]; intros e Hserves Hrun; simpl in Hrun.
  - injection Hrun as <-. simpl. by rewrite !app_nil_r.
  - unfold bind in Hrun. rewrite (loadFilteredPolicies_pg _ _ _ d T) in Hrun by done.
    destruct (scanRows _ _ _) as [[x|] e1] eqn:Hscan; [discriminate|].
    apply scanRows_accepted in Hscan. simpl in Hscan.
    destruct Hscan as (Ha & Hw & Hl & Hq & Hm).
    apply IH in Hrun.
    2: { destruct Hserves as (Hdb & Hreach & n & cols & Hfold & Hrel).
         unfold serves. simpl. rewrite Ha, Hw. eauto 10. }
    simpl in Hrun. destruct Hrun as (Ha' & Hw' & Hq' & Hl' & Hm').
    rewrite queriesOf_app in Hq, Hq'. rewrite loadedLines_app in Hl, Hl'.
    simpl in Hq, Hq', Hl, Hl'. rewrite app_nil_r in Hq', Hl', Hl.
    split; [congruence|]. split; [congruence|]. split; [|split].
    + by rewrite Hq', Hq, Ha, <- app_assoc.
    + rewrite Hl', Hl, <- app_assoc. unfold selectedLines at 2. by rewrite map_map.
    + rewrite Hm', Hm. cbn [map concat]. unfold feed. rewrite foldl_app.
      unfold selectedLines at 2. by rewrite map_map.
Qed.

(** C3: a batch (or any accepted argument holding the filters [filters])
    whose load succeeds has run one query per filter, in the order of the
    batch, and has handed to the model the lines of the rows selected by
    the first filter, then those of the second, and so on, nothing left
    out and nothing merged: the model is what the loader makes of that
    concatenation, every row matching some filter of the batch has its
    line loaded, and a row is handed over once for every filter it
    matches. *)
Theorem batch_filter_union ctx filterArg filters (e e' : Env PgWorld M) d T :
  serves e d ctx T ->
  typeSwitch filterArg = Resolved filters ->
  LoadFilteredPolicyCtx LoadPolicyArray LoadPolicyCtx ctx filterArg e = (Returned None, e') ->
  queriesOf (trace e') = queriesOf (trace e) ++ map (filterQuery (adapter e)) filters /\
  loadedLines (trace e') =
    loadedLines (trace e) ++ concat (map (fun f => selectedLines f T) filters) /\
  model e' = feed LoadPolicyArray (concat (map (fun f => selectedLines f T) filters))
                  (model e) /\
  (forall f r, f ∈ filters -> r ∈ T -> matchesFilter f r ->
               policyLine (scanRow r) ∈ concat (map (fun f => selectedLines f T) filters)) /\
  concat (map (fun f => selectedRows f T) filters)
    ≡ₚ concat (map (fun f => filter (matchesFilter f) T) filters).
Proof.
  intros Hserves Hsw Hrun.
  rewrite (LoadFilteredPolicyCtx_resolved _ _ _ _ filters) in Hrun by done.
  apply (loadEach_pg _ _ _ _ d T) in Hrun.
  2: { destruct Hserves as (Hdb & Hreach & n & cols & Hfold & Hrel).
       unfold serves, flagged. simpl. eauto 10. }
  simpl in Hrun. destruct Hrun as (_ & _ & Hq & Hl & Hm).
  rewrite queriesOf_app in Hq. rewrite loadedLines_app in Hl.
  simpl in Hq, Hl. rewrite app_nil_r in Hq, Hl.
  split; [done|]. split; [done|].
  split; [done|]. split.
  - intros f r Hf Hr Hmatch. apply list_elem_of_In, in_concat.
    exists (selectedLines f T). split.
    + apply in_map_iff. exists f. split; [done|by apply list_elem_of_In].
    + unfold selectedLines. apply in_map_iff. exists r. split; [done|].
      apply list_elem_of_In. by apply selectedRows_elem.
  - clear. induction filters as [|f fs IH]; simpl; [done|].
    unfold selectedRows at 1. by rewrite merge_sort_Permutation, IH.
Qed.

End PgFacts.

(** * Quoting and the statements of the bootstrap *)

#[local] Arguments String.append !s1 s2 : simpl nomatch.

Lemma append_assoc (a b c : string) : (a +:+ b) +:+ c = a +:+ (b +:+ c).
Proof. induction a as [|x a IH]; simpl; [done|by rewrite IH]. Qed.

Lemma append_nil_r (a : string) : a +:+ "" = a.
Proof. induction a as [|x a IH]; simpl; [done|by rewrite IH]. Qed.

Lemma Sanitize_one s : Sanitize [s] = quoted s.
Proof. reflexivity. Qed.



(** Reading back a quoted name gives the name, whatever it contains. *)
Lemma lexQuotedBody_escape s rest :
  startsWithQuote rest = false ->
  lexQuotedBody (escape s +:+ String dquote rest) = Some (s, rest).
Proof.
  intros Hrest. induction s as [|c s IH].
  - simpl. destruct rest as [|c' rest]; [done|]. simpl in Hrest. by rewrite Hrest.
  - unfold escape in *. simpl. destruct (Ascii.eqb c dquote) eqn:Hc.
    + apply Ascii.eqb_eq in Hc as ->. simpl. by rewrite IH.
    + simpl. by rewrite Hc, IH.
Qed.

Lemma lexIdent_quoted s rest :
  clean s <> "" -> startsWithQuote rest = false ->
  lexIdent (quoted s +:+ rest) = Some (clean s, rest).
Proof.
  intros Hne Hrest. unfold quoted, lexIdent, lexQuoted. simpl.
  rewrite append_assoc. simpl. rewrite lexQuotedBody_escape by done.
  by destruct (clean s).
Qed.


(** The fixed words of the three statements. *)
Lemma eat_table x :
  eatWords ["CREATE"; "TABLE"] ("CREATE TABLE IF NOT EXISTS " +:+ x)
  = Some (" IF NOT EXISTS " +:+ x).
Proof. reflexivity. Qed.

Lemma eat_unique x :
  eatWords ["CREATE"; "TABLE"] ("CREATE UNIQUE INDEX IF NOT EXISTS " +:+ x) = None /\
  eatWords ["CREATE"; "UNIQUE"; "INDEX"] ("CREATE UNIQUE INDEX IF NOT EXISTS " +:+ x)
  = Some (" IF NOT EXISTS " +:+ x).
Proof. split; reflexivity. Qed.

Lemma eat_index x :
  eatWords ["CREATE"; "TABLE"] ("CREATE INDEX IF NOT EXISTS " +:+ x) = None /\
  eatWords ["CREATE"; "UNIQUE"; "INDEX"] ("CREATE INDEX IF NOT EXISTS " +:+ x) = None /\
  eatWords ["CREATE"; "INDEX"] ("CREATE INDEX IF NOT EXISTS " +:+ x)
  = Some (" IF NOT EXISTS " +:+ x).
Proof. repeat split; reflexivity. Qed.

Lemma ifNotExists_written x : ifNotExists (" IF NOT EXISTS " +:+ x) = (true, " " +:+ x).
Proof. reflexivity. Qed.

Lemma skipSpaces_quoted s rest : skipSpaces (" " +:+ quoted s +:+ rest) = quoted s +:+ rest.
Proof. reflexivity. Qed.

Lemma parse_table t :
  clean t <> "" ->
  parseDDL (createTableSQL (Sanitize [t])) = Some (CreateTable true (clean t) policyColumns).
Proof.
  intros Hne. rewrite Sanitize_one. unfold createTableSQL, parseDDL.
  rewrite eat_table. unfold parseCreateTable.
  rewrite ifNotExists_written, skipSpaces_quoted, lexIdent_quoted by done.
  reflexivity.
Qed.

Lemma parse_unique t :
  clean t <> "" ->
  parseDDL (createUniqueIndexSQL (Sanitize ["idx_" +:+ t]) (Sanitize [t])) =
    Some (CreateIndex true true ("idx_" +:+ clean t) (clean t) uniqueKey).
Proof.
  intros Hne. rewrite !Sanitize_one. unfold createUniqueIndexSQL, parseDDL.
  destruct (eat_unique (quoted ("idx_" +:+ t) +:+ newline +:+ tab +:+ tab +:+ "ON " +:+
                        quoted t +:+
    "(ptype, COALESCE(v0,''), COALESCE(v1,''), COALESCE(v2,''), COALESCE(v3,''), COALESCE(v4,''), COALESCE(v5,''))"))
    as [-> ->].
  unfold parseCreateIndex.
  rewrite ifNotExists_written, skipSpaces_quoted, lexIdent_quoted by done.
  change (eatWords ["ON"] (newline +:+ tab +:+ tab +:+ "ON " +:+ ?x)) with (Some (" " +:+ x)).
  cbv iota beta.
  rewrite skipSpaces_quoted, lexIdent_quoted by done.
  reflexivity.
Qed.












(** * Facts about the construction *)

Section ConstructionFacts.
Context {W : Type} `{!Driver W}.

Lemma exec_eq d ctx sql (s : Sys W) :
  exec d ctx sql s =
    (fst (db_Exec d ctx sql (sys_world s)),
     Build_Sys (snd (db_Exec d ctx sql (sys_world s))) (sys_trace s ++ [EvExec d sql])).
Proof.
  unfold exec, note, inWorld, bind, modify. simpl.
  by destruct (db_Exec d ctx sql (sys_world s)).
Qed.

Lemma createIndexes_trace a d ctx l (s s' : Sys W) o :
  db a = Some d ->
  createIndexes a ctx l s = (o, s') ->
  exists k,
    sys_trace s' =
      sys_trace s ++ map (EvExec d) (take k (map (createIndexSQL (tableName a)) l)) /\
    (o = Returned None -> take k (map (createIndexSQL (tableName a)) l)
                          = map (createIndexSQL (tableName a)) l).
Proof.
  intros Hdb. revert s. induction l as [|cols l IH]; intros s Hrun; simpl in Hrun.
  - injection Hrun as <- <-. exists 0. simpl. by rewrite app_nil_r.
  - unfold bind, createIndex in Hrun. rewrite Hdb in Hrun.
    unfold bind in Hrun. rewrite exec_eq in Hrun.
    destruct (fst (db_Exec _ _ _ _)) as [x|].
    + injection Hrun as <- <-. exists 1. simpl. split; [done|]. discriminate.
    + simpl in Hrun. apply IH in Hrun. destruct Hrun as (k & Ht & Hk).
      exists (S k). simpl in *. rewrite Ht, <- app_assoc. split; [done|].
      intros Ho. by rewrite Hk.
Qed.

(** The bootstrap executes its statements in order and stops at the first
    that fails. *)
Lemma createTable_trace a d (s s' : Sys W) o :
  db a = Some d ->
  createTable a s = (o, s') ->
  exists k,
    sys_trace s' = sys_trace s ++ map (EvExec d) (take k (bootstrapStatements a)) /\
    (o = Returned None -> take k (bootstrapStatements a) = bootstrapStatements a).
Proof.
  intros Hdb Hrun. unfold createTable in Hrun. rewrite Hdb in Hrun.
  unfold bind at 1 in Hrun. rewrite exec_eq in Hrun.
  destruct (fst (db_Exec _ _ _ _)) as [x|].
  { injection Hrun as <- <-. exists 1. split; [done|]. discriminate. }
  unfold bind at 1 in Hrun. rewrite exec_eq in Hrun. simpl in Hrun.
  destruct (fst (db_Exec _ _ _ _)) as [x|].
  { injection Hrun as <- <-. exists 2. simpl. rewrite <- app_assoc.
    split; [done|]. discriminate. }
  apply (createIndexes_trace _ d) in Hrun; [|done].
  destruct Hrun as (k & Ht & Hk). exists (S (S k)). simpl in *.
  rewrite Ht, <- !app_assoc. split; [done|]. intros Ho. by rewrite Hk.
Qed.

Lemma execsOf_app t1 t2 : execsOf (t1 ++ t2) = execsOf t1 ++ execsOf t2.
Proof. apply omap_app. Qed.

Lemma execsOf_map d l : execsOf (map (EvExec d) l) = l.
Proof. induction l as [|x l IH]; simpl; [done|]. unfold execsOf in *. simpl. by rewrite IH. Qed.

Lemma bootstrap_inv a (s s' : Sys W) r :
  bootstrap a s = (r, s') ->
  match r with
  | NewReturned (Some a') None => a' = a /\ createTable a s = (Returned None, s')
  | NewReturned None (Some e) =>
      exists x, e = Errorf "failed to create table: " x /\
                createTable a s = (Returned (Some x), s')
  | NewReturned _ _ => False
  | NewPanicked msg => createTable a s = (Panicked msg, s')
  end.
Proof.
  unfold bootstrap, bind. destruct (createTable a s) as [[[x|]|msg] s1];
    unfold ret; intros [= <- <-]; eauto.
Qed.

Lemma applyOptions_indexes reqs a :
  applyOptions (map WithIndex reqs) a =
    {| db := db a; conn := conn a; pool := pool a; tableName := tableName a;
       database := database a; psql := psql a; isFiltered := isFiltered a;
       indexes := indexes a ++ filter nonEmpty reqs; usePool := usePool a |}.
Proof.
  revert a. unfold applyOptions.
  induction reqs as [|cols reqs IH]; intros a; simpl.
  - rewrite app_nil_r. by destruct a.
  - rewrite IH, filter_cons. unfold WithIndex. destruct cols as [|c cols]; simpl.
    + done.
    + by rewrite <- app_assoc.
Qed.

Lemma tableOptions_adapter t reqs a :
  tableName (applyOptions (tableOptions t reqs) a) = t /\
  indexes (applyOptions (tableOptions t reqs) a) = indexes a ++ filter nonEmpty reqs /\
  db (applyOptions (tableOptions t reqs) a) = db a.
Proof.
  unfold tableOptions. change (applyOptions (?o :: ?l) a) with (applyOptions l (o a)).
  by rewrite applyOptions_indexes.
Qed.

End ConstructionFacts.

Section ConstructorFacts.
Context {W : Type} `{!Driver W}.








End ConstructorFacts.

(** * The bootstrap against the reference server *)

Lemma execDDL_extends stmt (c c' : gmap string Relation) :
  execDDL stmt c = Ok c' -> c ⊆ c'.
Proof.
  destruct stmt as [ine name cols|unique ine name table elems]; simpl.
  - destruct (c !! name) eqn:Hname.
    + destruct ine; [|done]. by intros [= <-].
    + case_bool_decide; [|done]. intros [= <-]. by apply insert_subseteq.
  - destruct (c !! table) as [[cols rows|? ? ?]|]; try done.
    destruct (forallb _ _); [|done].
    destruct (c !! name) eqn:Hname.
    + destruct ine; [|done]. by intros [= <-].
    + destruct (unique && _); [done|]. intros [= <-]. by apply insert_subseteq.
Qed.

(** Once a create-if-not-exists has succeeded, it succeeds again, changing
    nothing, in any catalog that kept what it left. *)
Lemma execDDL_stable stmt (c c' c'' : gmap string Relation) :
  isIne stmt = true -> execDDL stmt c = Ok c' -> c' ⊆ c'' -> execDDL stmt c'' = Ok c''.
Proof.
  intros Hine Hrun Hsub. pose proof (execDDL_extends _ _ _ Hrun) as Hext.
  destruct stmt as [ine name cols|unique ine name table elems]; simpl in *; subst ine.
  - assert (is_Some (c' !! name)) as [rel Hrel].
    { destruct (c !! name) eqn:Hname.
      - injection Hrun as <-. by eexists.
      - case_bool_decide; [|done]. injection Hrun as <-. rewrite lookup_insert_eq. by eexists. }
    by rewrite (lookup_weaken _ _ _ _ Hrel Hsub).
  - destruct (c !! table) as [[cols rows|? ? ?]|] eqn:Htable; try done.
    rewrite (lookup_weaken _ _ _ _ (lookup_weaken _ _ _ _ Htable Hext) Hsub).
    destruct (forallb _ _); [|done].
    assert (is_Some (c' !! name)) as [rel Hrel].
    { destruct (c !! name) eqn:Hname.
      - injection Hrun as <-. by eexists.
      - destruct (unique && _); [done|]. injection Hrun as <-.
        rewrite lookup_insert_eq. by eexists. }
    by rewrite (lookup_weaken _ _ _ _ Hrel Hsub).
Qed.

Lemma ine_table x : ineSql ("CREATE TABLE IF NOT EXISTS " +:+ x).
Proof.
  intros d. unfold parseDDL. rewrite eat_table. unfold parseCreateTable.
  rewrite ifNotExists_written.
  destruct (lexIdent _) as [[name r]|]; [|done].
  destruct (parenList _); [|done]. destruct (readAll _ _); [|done]. by intros [= <-].
Qed.

Lemma ine_index_body unique x d :
  parseCreateIndex unique (" IF NOT EXISTS " +:+ x) = Some d -> isIne d = true.
Proof.
  unfold parseCreateIndex. rewrite ifNotExists_written.
  destruct (lexIdent _) as [[name r]|]; [|done].
  destruct (eatWords _ _); [|done].
  destruct (lexIdent _) as [[table r3]|]; [|done].
  destruct (parenList _); [|done]. destruct (readAll _ _); [|done]. by intros [= <-].
Qed.

Lemma ine_unique x : ineSql ("CREATE UNIQUE INDEX IF NOT EXISTS " +:+ x).
Proof.
  intros d. unfold parseDDL. destruct (eat_unique x) as [-> ->]. apply ine_index_body.
Qed.

Lemma ine_index x : ineSql ("CREATE INDEX IF NOT EXISTS " +:+ x).
Proof.
  intros d. unfold parseDDL. destruct (eat_index x) as (-> & -> & ->).
  apply ine_index_body.
Qed.

Lemma bootstrapStatements_ine a : Forall ineSql (bootstrapStatements a).
Proof.
  unfold bootstrapStatements. constructor; [apply ine_table|].
  constructor; [apply ine_unique|].
  apply Forall_forall. intros sql [cols [<- _]]%list_elem_of_In%in_map_iff.
  unfold createIndexSQL. apply ine_index.
Qed.

Lemma pgExec_inv d ctx sql (w w' : PgWorld) :
  pgExec d ctx sql w = (None, w') ->
  unreachable d ctx w = None /\
  exists stmt, parseDDL sql = Some stmt /\
               execDDL stmt (pg_relations w) = Ok (pg_relations w') /\
               pg_up w' = pg_up w /\ pg_open w' = pg_open w /\ pg_next w' = pg_next w.
Proof.
  unfold pgExec. destruct (unreachable d ctx w); [done|].
  destruct (parseDDL sql) as [stmt|]; [|done].
  destruct (execDDL stmt (pg_relations w)) as [rels|x] eqn:Hrun; [|done].
  intros [= <-]. eauto 10.
Qed.

Lemma pgExec_settled d sql (w w' : PgWorld) :
  ineSql sql -> pgExec d Background sql w = (None, w') ->
  pg_relations w ⊆ pg_relations w' /\ settled sql w' /\
  forall d', unreachable d' Background w' = unreachable d' Background w.
Proof.
  intros Hine Hrun. apply pgExec_inv in Hrun.
  destruct Hrun as (_ & stmt & Hparse & Hexec & Hup & Hopen & _).
  split; [by eapply execDDL_extends|]. split.
  - intros d2 w2 Hsub Hreach. unfold pgExec. rewrite Hreach, Hparse.
    rewrite (execDDL_stable stmt _ _ (pg_relations w2) (Hine _ Hparse) Hexec Hsub).
    by destruct w2.
  - intros d'. unfold unreachable. by rewrite Hup, Hopen.
Qed.

Lemma settled_mono sql (w w' : PgWorld) :
  settled sql w -> pg_relations w ⊆ pg_relations w' -> settled sql w'.
Proof.
  intros Hs Hsub d w2 Hsub2 Hreach. apply Hs; [|done]. by etrans.
Qed.

Lemma createIndexes_settled a d l (s s' : Sys PgWorld) :
  db a = Some d ->
  createIndexes a Background l s = (Returned None, s') ->
  pg_relations (sys_world s) ⊆ pg_relations (sys_world s') /\
  Forall (fun sql => settled sql (sys_world s')) (map (createIndexSQL (tableName a)) l) /\
  forall d', unreachable d' Background (sys_world s')
             = unreachable d' Background (sys_world s).
Proof.
  intros Hdb. revert s. induction l as [|cols l IH]; intros s Hrun; simpl in Hrun.
  - injection Hrun as <-. by split; [|split; [constructor|]].
  - unfold bind, createIndex in Hrun. rewrite Hdb in Hrun.
    unfold bind in Hrun. rewrite exec_eq in Hrun. simpl in Hrun.
    destruct (pgExec _ _ _ _) as [[x|] w1] eqn:Hexec; simpl in Hrun; [done|].
    apply pgExec_settled in Hexec; [|apply ine_index].
    destruct Hexec as (Hsub & Hset & Hreach).
    apply IH in Hrun. simpl in Hrun. destruct Hrun as (Hsub' & Hall & Hreach').
    split; [by etrans|]. split.
    + cbn [map]. constructor; [by eapply settled_mono|done].
    + intros d'. by rewrite Hreach', Hreach.
Qed.

Lemma createTable_settled a d (s s' : Sys PgWorld) :
  db a = Some d ->
  createTable a s = (Returned None, s') ->
  pg_relations (sys_world s) ⊆ pg_relations (sys_world s') /\
  Forall (fun sql => settled sql (sys_world s')) (bootstrapStatements a) /\
  forall d', unreachable d' Background (sys_world s')
             = unreachable d' Background (sys_world s).
Proof.
  intros Hdb Hrun. unfold createTable in Hrun. rewrite Hdb in Hrun.
  unfold bind at 1 in Hrun. rewrite exec_eq in Hrun. simpl in Hrun.
  destruct (pgExec _ _ _ _) as [[x|] w1] eqn:Hexec1; simpl in Hrun; [done|].
  unfold bind at 1 in Hrun. rewrite exec_eq in Hrun. simpl in Hrun.
  destruct (pgExec _ _ _ w1) as [[x|] w2] eqn:Hexec2; simpl in Hrun; [done|].
  apply pgExec_settled in Hexec1; [|apply ine_table].
  apply pgExec_settled in Hexec2; [|apply ine_unique].
  apply (createIndexes_settled _ d) in Hrun; [|done]. simpl in Hrun.
  destruct Hexec1 as (Hs1 & Hset1 & Hr1), Hexec2 as (Hs2 & Hset2 & Hr2),
    Hrun as (Hs3 & Hall & Hr3).
  split; [by etrans; [|etrans]|]. split.
  - unfold bootstrapStatements. constructor.
    { eapply settled_mono; [exact Hset1|]. by etrans. }
    constructor; [by eapply settled_mono|done].
  - intros d'. by rewrite Hr3, Hr2, Hr1.
Qed.

Lemma exec_pg d ctx sql (w : PgWorld) tr :
  exec d ctx sql (Build_Sys w tr) =
    (fst (pgExec d ctx sql w), Build_Sys (snd (pgExec d ctx sql w)) (tr ++ [EvExec d sql])).
Proof. by rewrite exec_eq. Qed.

Lemma createIndexes_rerun a d l (w : PgWorld) tr :
  db a = Some d -> unreachable d Background w = None ->
  Forall (fun sql => settled sql w) (map (createIndexSQL (tableName a)) l) ->
  createIndexes a Background l (Build_Sys w tr) =
    (Returned None,
     Build_Sys w (tr ++ map (EvExec d) (map (createIndexSQL (tableName a)) l))).
Proof.
  intros Hdb Hreach. revert tr. induction l as [|cols l IH]; intros tr Hall.
  - cbn [createIndexes map]. by rewrite app_nil_r.
  - cbn [map] in Hall. apply Forall_cons in Hall as [Hset Hall].
    cbn [createIndexes map]. unfold bind, createIndex. rewrite Hdb. unfold bind.
    rewrite exec_pg, (Hset d w) by done. cbn [fst snd]. unfold ret.
    rewrite IH by done. by rewrite <- app_assoc.
Qed.

(** Running the bootstrap where its statements are settled changes nothing. *)
Lemma createTable_rerun a d (w : PgWorld) tr :
  db a = Some d -> unreachable d Background w = None ->
  Forall (fun sql => settled sql w) (bootstrapStatements a) ->
  createTable a (Build_Sys w tr) =
    (Returned None, Build_Sys w (tr ++ map (EvExec d) (bootstrapStatements a))).
Proof.
  intros Hdb Hreach Hall. unfold bootstrapStatements in *.
  apply Forall_cons in Hall as [Hset1 Hall]. apply Forall_cons in Hall as [Hset2 Hall].
  unfold createTable. rewrite Hdb.
  unfold bind at 1. rewrite exec_pg, (Hset1 d w) by done. cbn [fst snd].
  unfold bind at 1. rewrite exec_pg, (Hset2 d w) by done. cbn [fst snd].
  rewrite (createIndexes_rerun _ d) by done. cbn [map]. by rewrite <- !app_assoc.
Qed.

Lemma parse_table_empty t :
  clean t = "" -> parseDDL (createTableSQL (Sanitize [t])) = None.
Proof.
  intros Hempty. rewrite Sanitize_one. unfold createTableSQL, parseDDL.
  rewrite eat_table. unfold parseCreateTable.
  rewrite ifNotExists_written, skipSpaces_quoted. unfold quoted. rewrite Hempty.
  reflexivity.
Qed.

Lemma idx_differs (x : string) : "idx_" +:+ x <> x.
Proof.
  intros Heq. apply (f_equal String.length) in Heq. simpl in Heq. lia.
Qed.

(** What a successful bootstrap leaves in the catalog. *)
Lemma createTable_names a d (s s' : Sys PgWorld) :
  db a = Some d ->
  createTable a s = (Returned None, s') ->
  clean (tableName a) <> "" /\
  pg_relations (sys_world s) ⊆ pg_relations (sys_world s') /\
  (exists cols rows,
      pg_relations (sys_world s') !! clean (tableName a) = Some (RelTable cols rows)) /\
  (pg_relations (sys_world s) !! clean (tableName a) = None ->
   pg_relations (sys_world s') !! clean (tableName a) = Some (RelTable policyColumns [])) /\
  (pg_relations (sys_world s) !! ("idx_" +:+ clean (tableName a)) = None ->
   pg_relations (sys_world s') !! ("idx_" +:+ clean (tableName a))
     = Some (RelIndex true (clean (tableName a)) uniqueKey)).
Proof.
  intros Hdb Hrun. unfold createTable in Hrun. rewrite Hdb in Hrun.
  unfold bind at 1 in Hrun. rewrite exec_eq in Hrun. cbn [db_Exec PgDriver] in Hrun.
  destruct (pgExec d Background _ (sys_world s)) as [[x|] w1] eqn:Hexec1;
    cbn [fst snd] in Hrun; [done|].
  unfold bind at 1 in Hrun. rewrite exec_eq in Hrun.
  cbn [db_Exec PgDriver sys_world] in Hrun.
  destruct (pgExec d Background _ w1) as [[x|] w2] eqn:Hexec2;
    cbn [fst snd] in Hrun; [done|].
  apply (createIndexes_settled _ d) in Hrun; [|done].
  destruct Hrun as (Hsub & _ & _). cbn [sys_world] in Hsub.
  apply pgExec_inv in Hexec1. destruct Hexec1 as (_ & stmt1 & Hp1 & He1 & _).
  apply pgExec_inv in Hexec2. destruct Hexec2 as (_ & stmt2 & Hp2 & He2 & _).
  destruct (decide (clean (tableName a) = "")) as [Hempty|Hne].
  { by rewrite parse_table_empty in Hp1. }
  rewrite parse_table in Hp1 by done. injection Hp1 as <-.
  rewrite parse_unique in Hp2 by done. injection Hp2 as <-.
  set (t := clean (tableName a)) in *.
  pose proof (execDDL_extends _ _ _ He1) as Hsub01.
  pose proof (execDDL_extends _ _ _ He2) as Hsub12.
  cbv beta iota delta [execDDL] in He2.
  destruct (pg_relations w1 !! t) as [[cols rows|? ? ?]|] eqn:Ht; try done.
  destruct (forallb _ uniqueKey) eqn:Hcols; [|done].
  change (String "i" (String "d" (String "x" (String "_" t)))) with ("idx_" +:+ t) in He2.
  split; [done|]. split; [by etrans; [|etrans]|]. split.
  { exists cols, rows. eapply lookup_weaken; [exact Ht|]. by etrans. }
  cbv beta iota delta [execDDL] in He1. split.
  - intros Hfree. rewrite Hfree in He1.
    case_bool_decide; [|done]. injection He1 as He1.
    eapply lookup_weaken; [|etrans; [exact Hsub12|exact Hsub]].
    rewrite <- He1. apply lookup_insert_eq.
  - intros Hfree.
    assert (pg_relations w1 !! ("idx_" +:+ t) = None) as Hfree1.
    { destruct (pg_relations (sys_world s) !! t).
      - injection He1 as <-. exact Hfree.
      - case_bool_decide; [|done]. injection He1 as <-.
        rewrite lookup_insert_ne; [exact Hfree|]. intros Heq. by apply (idx_differs t). }
    rewrite Hfree1 in He2.
    destruct (true && negb (uniqueOn uniqueKey rows)); [done|]. injection He2 as He2.
    eapply lookup_weaken; [|exact Hsub].
    rewrite <- He2. apply lookup_insert_eq.
Qed.

(** A second construction on the catalog a first one left. *)
Lemma bootstrap_again a1 a2 d1 d2 (s s1 : Sys PgWorld) :
  db a1 = Some d1 -> db a2 = Some d2 ->
  tableName a2 = tableName a1 -> indexes a2 = indexes a1 ->
  createTable a1 s = (Returned None, s1) ->
  unreachable d2 Background (sys_world s1) = None ->
  bootstrap a2 s1 =
    (NewReturned (Some a2) None,
     Build_Sys (sys_world s1) (sys_trace s1 ++ map (EvExec d2) (bootstrapStatements a1))).
Proof.
  intros Hd1 Hd2 Ht Hi Hrun Hreach.
  apply (createTable_settled _ d1) in Hrun; [|done]. destruct Hrun as (_ & Hall & _).
  assert (bootstrapStatements a2 = bootstrapStatements a1) as Hsame.
  { unfold bootstrapStatements. by rewrite Ht, Hi. }
  unfold bootstrap, bind. destruct s1 as [w1 tr1]. simpl in *.
  rewrite (createTable_rerun a2 d2) by (by rewrite ?Hsame). by rewrite Hsame.
Qed.

(** C7 (amended): the bootstrap is idempotent.  When an adapter has been
    constructed on the table [t] with the secondary indexes [reqs],
    constructing a second one with the same options, over a connection or
    over a pool, on what the first left, succeeds and changes nothing in
    the database: no relation is added, none is replaced.  The two
    statements of the table are create-if-not-exists statements that read
    on the server as the table with the columns [id] (serial, primary key),
    [ptype] (not null) and [v0 .. v5] (nullable), and as the unique index
    on [ptype] and the coalesced [v0 .. v5].  After the first construction
    a table exists under the name [t]; it is the specified table if the
    name was free before, and the unique index is there under its name if
    that name was free before.  A name that was taken keeps the relation it
    had: the statement is skipped, so the construction does not ensure the
    table or the index where their names are in use. *)
Theorem bootstrap_idempotent (t : string) (reqs : list (list string)) (c1 : Conn)
    (s s1 : Sys PgWorld) (a1 : PgxAdapter) :
  NewAdapterWithConn c1 (tableOptions t reqs) s = (NewReturned (Some a1) None, s1) ->
  (forall c2, unreachable (DBConn c2) Background (sys_world s1) = None ->
     exists a2 tr,
       NewAdapterWithConn c2 (tableOptions t reqs) s1
         = (NewReturned (Some a2) None, Build_Sys (sys_world s1) tr) /\
       tableName a2 = tableName a1 /\ indexes a2 = indexes a1) /\
  (forall p2, unreachable (DBPool p2) Background (sys_world s1) = None ->
     exists a2 tr,
       NewAdapterWithPool p2 (tableOptions t reqs) s1
         = (NewReturned (Some a2) None, Build_Sys (sys_world s1) tr) /\
       tableName a2 = tableName a1 /\ indexes a2 = indexes a1) /\
  Forall ineSql (bootstrapStatements a1) /\
  parseDDL (createTableSQL (Sanitize [t]))
    = Some (CreateTable true (clean t) policyColumns) /\
  parseDDL (createUniqueIndexSQL (Sanitize ["idx_" +:+ t]) (Sanitize [t]))
    = Some (CreateIndex true true ("idx_" +:+ clean t) (clean t) uniqueKey) /\
  (exists cols rows,
      pg_relations (sys_world s1) !! clean t = Some (RelTable cols rows)) /\
  (pg_relations (sys_world s) !! clean t = None ->
   pg_relations (sys_world s1) !! clean t = Some (RelTable policyColumns [])) /\
  (pg_relations (sys_world s) !! ("idx_" +:+ clean t) = None ->
   pg_relations (sys_world s1) !! ("idx_" +:+ clean t)
     = Some (RelIndex true (clean t) uniqueKey)) /\
  (forall rel, pg_relations (sys_world s) !! clean t = Some rel ->
               pg_relations (sys_world s1) !! clean t = Some rel) /\
  (forall rel, pg_relations (sys_world s) !! ("idx_" +:+ clean t) = Some rel ->
               pg_relations (sys_world s1) !! ("idx_" +:+ clean t) = Some rel).
Proof.
  intros Hnew.
  change (NewAdapterWithConn c1 (tableOptions t reqs) s)
    with (bootstrap (applyOptions (tableOptions t reqs) (connAdapter c1)) s) in Hnew.
  apply bootstrap_inv in Hnew. cbv iota beta in Hnew. destruct Hnew as [-> Hrun].
  destruct (tableOptions_adapter t reqs (connAdapter c1)) as (Ht1 & Hi1 & Hd1).
  pose proof (createTable_names _ (DBConn c1) _ _ Hd1 Hrun) as Hnames.
  rewrite Ht1 in Hnames. destruct Hnames as (Hne & Hsub & Htable & Hfresh & Hunique).
  split.
  { intros c2 Hreach.
    destruct (tableOptions_adapter t reqs (connAdapter c2)) as (Ht2 & Hi2 & Hd2).
    exists (applyOptions (tableOptions t reqs) (connAdapter c2)). eexists.
    split; [|split; [by rewrite Ht1, Ht2|by rewrite Hi1, Hi2]].
    change (NewAdapterWithConn c2 (tableOptions t reqs) s1)
      with (bootstrap (applyOptions (tableOptions t reqs) (connAdapter c2)) s1).
    apply (bootstrap_again (applyOptions (tableOptions t reqs) (connAdapter c1)) _
                           (DBConn c1) (DBConn c2) s);
      [exact Hd1|exact Hd2|by rewrite Ht1, Ht2|by rewrite Hi1, Hi2|exact Hrun|exact Hreach]. }
  split.
  { intros p2 Hreach.
    destruct (tableOptions_adapter t reqs (poolAdapter p2)) as (Ht2 & Hi2 & Hd2).
    exists (applyOptions (tableOptions t reqs) (poolAdapter p2)). eexists.
    split; [|split; [by rewrite Ht1, Ht2|by rewrite Hi1, Hi2]].
    change (NewAdapterWithPool p2 (tableOptions t reqs) s1)
      with (bootstrap (applyOptions (tableOptions t reqs) (poolAdapter p2)) s1).
    apply (bootstrap_again (applyOptions (tableOptions t reqs) (connAdapter c1)) _
                           (DBConn c1) (DBPool p2) s);
      [exact Hd1|exact Hd2|by rewrite Ht1, Ht2|by rewrite Hi1, Hi2|exact Hrun|exact Hreach]. }
  split; [apply bootstrapStatements_ine|].
  split; [by apply parse_table|]. split; [by apply parse_unique|].
  split; [exact Htable|]. split; [exact Hfresh|]. split; [exact Hunique|].
  split; intros rel Hrel; by eapply lookup_weaken.
Qed.

(** C7, as it is worded, fails: after an adapter on the table [t] with an
    index on [v0], whose name is [idx_t_v0], an adapter on the table [t_v0]
    is constructed without error, and the unique index of [t_v0], which has
    that same name, is skipped: the database holds no unique index on
    [t_v0]. *)
Lemma unique_index_not_ensured :
  exists a1 s1 a2 s2,
    NewAdapterWithConn 0 (tableOptions "t" [["v0"]]) freshSys
      = (NewReturned (Some a1) None, s1) /\
    NewAdapterWithConn 0 (tableOptions "t_v0" []) s1 = (NewReturned (Some a2) None, s2) /\
    GetTableName a2 = "t_v0" /\
    pg_relations (sys_world s2) =
      list_to_map
        [("t", RelTable policyColumns []);
         ("idx_t", RelIndex true "t" uniqueKey);
         ("idx_t_v0", RelIndex false "t" [IdxColumn "v0"]);
         ("t_v0", RelTable policyColumns [])] /\
    forall name key,
      pg_relations (sys_world s2) !! name <> Some (RelIndex true "t_v0" key).
Proof.
  eexists _, _, _, _.
  split; [vm_compute; reflexivity|]. split; [vm_compute; reflexivity|].
  split; [reflexivity|]. split; [vm_compute; reflexivity|].
  intros name key Hlook.
  assert (map_Forall (fun _ rel => match rel with
                                   | RelIndex true table _ => table <> "t_v0"
                                   | _ => True
                                   end)
            (list_to_map (M := gmap string Relation)
               [("t", RelTable policyColumns []);
                ("idx_t", RelIndex true "t" uniqueKey);
                ("idx_t_v0", RelIndex false "t" [IdxColumn "v0"]);
                ("t_v0", RelTable policyColumns [])])) as Hall.
  { repeat (apply map_Forall_insert_2; [try done|]). apply map_Forall_empty. }
  eapply map_Forall_lookup_1 in Hall; [|exact Hlook]. by apply Hall.
Qed.


(** * Concrete runs *)

Lemma demo_serves : serves demoEnv (DBConn 0) Background demoTable.
Proof.
  split; [reflexivity|]. split; [reflexivity|].
  exists "casbin_rule", policyColumns. split; reflexivity.
Defined.

(** Loading with the filter ptype = p, v0 = alice yields only the rule of
    alice, and the adapter is filtered afterwards. *)
Example alice_only :
  fst (demoLoad Background (AnyFilter aliceFilter) demoEnv) = Returned None /\
  model (snd (demoLoad Background (AnyFilter aliceFilter) demoEnv))
    = [["p"; "alice"; "data1"; "read"]] /\
  fst (IsFiltered (snd (demoLoad Background (AnyFilter aliceFilter) demoEnv))) = true.
Proof. vm_compute. repeat split. Qed.

(** A filter without any list constrains nothing: every row is loaded, by
    ascending id, and a line stops at the last value its row has. *)
Example no_constraint :
  model (snd (demoLoad Background (AnyFilter noFilter) demoEnv))
    = [["p"; "bob"; "data1"; "write"]; ["p"; "alice"; "data1"; "read"];
       ["g"; "alice"; "admin"]; [""; "carol"]].
Proof. vm_compute. reflexivity. Qed.

(** Rows come back by ascending id: bob (1) before alice (2). *)
Example by_id :
  model (snd (demoLoad Background (AnyFilter data1Filter) demoEnv))
    = [["p"; "bob"; "data1"; "write"]; ["p"; "alice"; "data1"; "read"]].
Proof. vm_compute. reflexivity. Qed.

(** A row matched by two filters of a batch is handed over twice. *)
Example twice :
  model (snd (demoLoad Background
                (AnyBatchFilter {| Filters := [aliceFilter; data1Filter] |}) demoEnv))
    = [["p"; "alice"; "data1"; "read"];
       ["p"; "bob"; "data1"; "write"]; ["p"; "alice"; "data1"; "read"]].
Proof. vm_compute. reflexivity. Qed.

(** The nil filter loads everything and leaves the adapter unfiltered. *)
Example nil_loads_all :
  length (model (snd (demoLoad Background AnyNil demoEnv))) = 4 /\
  fst (IsFiltered (snd (demoLoad Background AnyNil demoEnv))) = false.
Proof. vm_compute. split; reflexivity. Qed.

(** A cancelled context makes the query fail; the flag is set all the same. *)
Example cancelled :
  fst (demoLoad (Derived true) (AnyFilter aliceFilter) demoEnv)
    = Returned (Some "failed to query policies: context canceled") /\
  fst (IsFiltered (snd (demoLoad (Derived true) (AnyFilter aliceFilter) demoEnv))) = true.
Proof. vm_compute. split; reflexivity. Qed.

(** Construction on an empty database, with two secondary indexes. *)
Example fresh_construction :
  exists a s1,
    NewAdapterWithConn 0 (tableOptions "casbin_rule" demoRequests) freshSys
      = (NewReturned (Some a) None, s1) /\
    indexes a = [["v0"]; ["v1"; "v2"]] /\
    pg_relations (sys_world s1) !! "idx_casbin_rule_v1_v2"
      = Some (RelIndex false "casbin_rule" [IdxColumn "v1"; IdxColumn "v2"]).
Proof. eexists _, _. vm_compute. repeat split. Qed.

(** An index on a column the table does not have aborts the construction. *)
Example bad_column :
  fst (NewAdapterWithConn 0 (tableOptions "casbin_rule" [["owner"]]) freshSys)
    = NewReturned None (Some (Errorf "failed to create table: "
        (Errorf "failed to create index idx_casbin_rule_owner: " "column does not exist"))).
Proof. vm_compute. reflexivity. Qed.

(** An unreachable server: no adapter, and nothing is left open. *)
Example unreachable_server :
  fst (NewAdapter "postgres://localhost/casbin" [WithPool] downSys)
    = NewReturned None (Some "failed to ping database: connection refused") /\
  pg_open (sys_world (snd (NewAdapter "postgres://localhost/casbin" [WithPool] downSys))) = [] /\
  execsOf (sys_trace (snd (NewAdapter "postgres://localhost/casbin" [WithPool] downSys))) = [].
Proof. vm_compute. repeat split. Qed.

(** * The theorems at concrete inputs *)

Lemma filtered_load_selects_matching_witness :
  serves demoEnv (DBConn 0) Background demoTable /\
  selectedRows aliceFilter demoTable ≡ₚ filter (matchesFilter aliceFilter) demoTable /\
  Sorted idLe (selectedRows aliceFilter demoTable).
Proof.
  split; [exact demo_serves|].
  pose proof (filtered_load_selects_matching recordLine Background aliceFilter demoEnv
                (DBConn 0) demoTable demo_serves) as (_ & Hperm & _ & Hsorted & _).
  split; [exact Hperm|exact Hsorted].
Defined.

Lemma scanned_row_line_witness :
  nullsTrail (scannedColumns (scanRow aliceRow)) = true /\
  policyLine (scanRow aliceRow) = truncatedLine (scanRow aliceRow).
Proof.
  split; [reflexivity|].
  exact (proj1 (proj2 (proj2 (scanned_row_line recordLine (scanRow aliceRow) demoEnv)))
               eq_refl).
Defined.

Lemma batch_filter_union_witness :
  serves demoEnv (DBConn 0) Background demoTable /\
  typeSwitch (AnyBatchFilter {| Filters := [aliceFilter; bobFilter] |})
    = Resolved [aliceFilter; bobFilter] /\
  demoLoad Background (AnyBatchFilter {| Filters := [aliceFilter; bobFilter] |}) demoEnv
    = (Returned None,
       snd (demoLoad Background (AnyBatchFilter {| Filters := [aliceFilter; bobFilter] |})
              demoEnv)) /\
  model (snd (demoLoad Background (AnyBatchFilter {| Filters := [aliceFilter; bobFilter] |})
                demoEnv))
    = feed recordLine
        (concat (map (fun f => selectedLines f demoTable) [aliceFilter; bobFilter])) [].
Proof.
  assert (demoLoad Background (AnyBatchFilter {| Filters := [aliceFilter; bobFilter] |})
            demoEnv
          = (Returned None,
             snd (demoLoad Background
                    (AnyBatchFilter {| Filters := [aliceFilter; bobFilter] |}) demoEnv)))
    as Hrun by (vm_compute; reflexivity).
  split; [exact demo_serves|]. split; [reflexivity|]. split; [exact Hrun|].
  exact (proj1 (proj2 (proj2
           (batch_filter_union recordLine (specLoadPolicyCtx recordLine) Background
              (AnyBatchFilter {| Filters := [aliceFilter; bobFilter] |})
              [aliceFilter; bobFilter] demoEnv _ (DBConn 0) demoTable
              demo_serves eq_refl Hrun)))).
Defined.

Lemma filter_type_check_witness :
  AnyFilterSlice [aliceFilter] <> AnyNil /\
  demoLoad Background (AnyFilterSlice [aliceFilter]) demoEnv
    <> (Returned (Some "invalid filter type"), demoEnv).
Proof.
  assert (AnyFilterSlice [aliceFilter] <> AnyNil) as Hnil by discriminate.
  split; [exact Hnil|].
  intros Hrun.
  destruct (proj1 (proj1 (proj2 (filter_type_check recordLine (specLoadPolicyCtx recordLine)
                                   Background demoEnv))
                     (AnyFilterSlice [aliceFilter]) Hnil) Hrun) as [typeName Heq].
  discriminate Heq.
Defined.

(** The second filter of the batch fails in the loader; the flag is set. *)
Lemma flag_set_before_queries_witness :
  typeSwitch (AnyBatchFilter {| Filters := [aliceFilter; blankFilter; bobFilter] |})
    = Resolved [aliceFilter; blankFilter; bobFilter] /\
  fst (strictLoad Background
         (AnyBatchFilter {| Filters := [aliceFilter; blankFilter; bobFilter] |}) demoEnv)
    = Returned (Some "invalid policy line") /\
  fst (IsFiltered (snd (strictLoad Background
         (AnyBatchFilter {| Filters := [aliceFilter; blankFilter; bobFilter] |}) demoEnv)))
    = true.
Proof.
  split; [reflexivity|]. split; [vm_compute; reflexivity|].
  exact (proj2 (proj2 (proj2
           (flag_set_before_queries strictLine (specLoadPolicyCtx strictLine)
              Background Background
              (AnyBatchFilter {| Filters := [aliceFilter; blankFilter; bobFilter] |})
              [aliceFilter; blankFilter; bobFilter] demoEnv _ _ eq_refl
              (surjective_pairing _))))).
Defined.


Lemma bootstrap_idempotent_witness :
  NewAdapterWithConn 0 (tableOptions "casbin_rule" demoRequests) freshSys
    = (NewReturned (Some (applyOptions (tableOptions "casbin_rule" demoRequests)
                                       (connAdapter 0))) None,
       snd (NewAdapterWithConn 0 (tableOptions "casbin_rule" demoRequests) freshSys)) /\
  unreachable (DBConn 1) Background
    (sys_world (snd (NewAdapterWithConn 0 (tableOptions "casbin_rule" demoRequests)
                       freshSys))) = None /\
  exists a2 tr,
    NewAdapterWithConn 1 (tableOptions "casbin_rule" demoRequests)
      (snd (NewAdapterWithConn 0 (tableOptions "casbin_rule" demoRequests) freshSys))
    = (NewReturned (Some a2) None,
       Build_Sys (sys_world (snd (NewAdapterWithConn 0
                                    (tableOptions "casbin_rule" demoRequests) freshSys)))
                 tr).
Proof.
  assert (NewAdapterWithConn 0 (tableOptions "casbin_rule" demoRequests) freshSys
          = (NewReturned (Some (applyOptions (tableOptions "casbin_rule" demoRequests)
                                             (connAdapter 0))) None,
             snd (NewAdapterWithConn 0 (tableOptions "casbin_rule" demoRequests) freshSys)))
    as Hnew by (vm_compute; reflexivity).
  assert (unreachable (DBConn 1) Background
            (sys_world (snd (NewAdapterWithConn 0 (tableOptions "casbin_rule" demoRequests)
                               freshSys))) = None)
    as Hreach by (vm_compute; reflexivity).
  split; [exact Hnew|]. split; [exact Hreach|].
  destruct (proj1 (bootstrap_idempotent "casbin_rule" demoRequests 0 freshSys _ _ Hnew)
              1 Hreach) as (a2 & tr & Hsecond & _).
  exists a2, tr. exact Hsecond.
Defined.

(** * Further properties of the code *)

(** ** Options and accessors *)

Lemma default_last_snoc (d x : string) (l : list string) :
  default d (last (l ++ [x])) = x.
Proof. by rewrite last_snoc. Qed.

Lemma applyOptions_snoc opts o a : applyOptions (opts ++ [o]) a = o (applyOptions opts a).
Proof. unfold applyOptions. by rewrite foldl_app. Qed.

Lemma configured_snoc l x a : configured (l ++ [x]) a = optionOf x (configured l a).
Proof.
  unfold configured, tablesOf, databasesOf, requestsOf, wantsPool.
  rewrite !omap_app, existsb_app.
  destruct x as [name|name|columns|]; simpl; rewrite ?app_nil_r, ?orb_false_r.
  - by rewrite last_snoc.
  - by rewrite last_snoc.
  - unfold WithIndex. rewrite filter_app, filter_cons, filter_nil.
    destruct columns as [|c columns]; simpl; by rewrite ?app_nil_r, ?app_assoc.
  - by rewrite !orb_true_r.
Qed.

Lemma applyOptions_configured l a : applyOptions (map optionOf l) a = configured l a.
Proof.
  induction l as [|x l IH] using rev_ind.
  - unfold configured. simpl. rewrite app_nil_r, orb_false_r. by destruct a.
  - rewrite map_app. cbn [map]. by rewrite applyOptions_snoc, IH, configured_snoc.
Qed.

(** X1: applying a list of the package's options configures the adapter
    as follows: the last [WithTableName] and the last [WithDatabaseName]
    win (without one, the name stays), every [WithIndex] that has columns
    adds its list after those already there, in order, [WithPool] switches
    the pool mode on for good, and the handles, the placeholder format and
    the flag are never touched.  Options given in two lists compose. *)
Theorem options_configure (l l' : list Setting) (a : PgxAdapter) :
  applyOptions (map optionOf l) a = configured l a /\
  applyOptions (map optionOf (l ++ l')) a = configured l' (configured l a) /\
  db (applyOptions (map optionOf l) a) = db a /\
  conn (applyOptions (map optionOf l) a) = conn a /\
  pool (applyOptions (map optionOf l) a) = pool a /\
  isFiltered (applyOptions (map optionOf l) a) = isFiltered a.
Proof.
  split; [apply applyOptions_configured|]. split.
  - rewrite map_app. unfold applyOptions. rewrite foldl_app.
    fold (applyOptions (map optionOf l) a).
    fold (applyOptions (map optionOf l') (applyOptions (map optionOf l) a)).
    by rewrite !applyOptions_configured.
  - by rewrite applyOptions_configured.
Qed.

Section AccessorFacts.
Context {W : Type} `{!Driver W}.

Lemma usePool_configured l : usePool (applyOptions (map optionOf l) zeroAdapter) = wantsPool l.
Proof. by rewrite applyOptions_configured. Qed.

(** X2: an adapter returned by [NewAdapter] under the package's options
    reports the configured table name and database name (or the defaults
    ["casbin_rule"] and ["casbin"]); with [WithPool] among the options
    [GetPool] is set, [GetConn] is nil and [GetDB] is the pool, and without
    it [GetConn] is set, [GetPool] is nil and [GetDB] is the connection; the
    adapter starts unfiltered. *)
Theorem accessors_after_NewAdapter (connStr : string) (l : list Setting)
    (s s' : Sys W) (a : PgxAdapter) :
  NewAdapter connStr (map optionOf l) s = (NewReturned (Some a) None, s') ->
  GetTableName a = default defaultTableName (last (tablesOf l)) /\
  GetDatabase a = default defaultDatabase (last (databasesOf l)) /\
  (if wantsPool l
   then exists p, GetPool a = Some p /\ GetConn a = None /\ GetDB a = Some (DBPool p)
   else exists c, GetConn a = Some c /\ GetPool a = None /\ GetDB a = Some (DBConn c)) /\
  indexes a = filter nonEmpty (requestsOf l) /\
  isFiltered a = false.
Proof.
  unfold NewAdapter. rewrite usePool_configured.
  destruct (wantsPool l); unfold bind, note, inWorld, modify, ret; simpl.
  - destruct (pgxpool_New _ _ _) as [[p|x] w1]; simpl; [|done].
    destruct (pool_Ping _ _ _) as [[x|] w2]; simpl.
    { by destruct (pool_Close _ _) as [[] w3]. }
    intros Hnew.
    change (NewAdapterWithPool p (map optionOf l) ?s0)
      with (bootstrap (applyOptions (map optionOf l) (poolAdapter p)) s0) in Hnew.
    apply bootstrap_inv in Hnew. cbv iota beta in Hnew. destruct Hnew as [-> _].
    rewrite applyOptions_configured. repeat split; eauto.
  - destruct (pgx_Connect _ _ _) as [[c|x] w1]; simpl; [|done].
    destruct (conn_Ping _ _ _) as [[x|] w2]; simpl.
    { by destruct (conn_Close _ _ _) as [[] w3]. }
    intros Hnew.
    change (NewAdapterWithConn c (map optionOf l) ?s0)
      with (bootstrap (applyOptions (map optionOf l) (connAdapter c)) s0) in Hnew.
    apply bootstrap_inv in Hnew. cbv iota beta in Hnew. destruct Hnew as [-> _].
    rewrite applyOptions_configured. repeat split; eauto.
Qed.

(** X3: a constructor that is given its handle keeps it: after
    [NewAdapterWithConn] the adapter works on that connection and after
    [NewAdapterWithPool] on that pool, whatever the options say; [WithPool]
    only sets the mode flag and does not turn a connection into a pool. *)
Theorem given_handle_is_kept (l : list Setting) (s s' : Sys W) (a : PgxAdapter) :
  (forall c,
      NewAdapterWithConn c (map optionOf l) s = (NewReturned (Some a) None, s') ->
      GetConn a = Some c /\ GetPool a = None /\ GetDB a = Some (DBConn c) /\
      usePool a = wantsPool l) /\
  (forall p,
      NewAdapterWithPool p (map optionOf l) s = (NewReturned (Some a) None, s') ->
      GetPool a = Some p /\ GetConn a = None /\ GetDB a = Some (DBPool p) /\
      usePool a = wantsPool l).
Proof.
  split.
  - intros c Hnew.
    change (NewAdapterWithConn c (map optionOf l) s)
      with (bootstrap (applyOptions (map optionOf l) (connAdapter c)) s) in Hnew.
    apply bootstrap_inv in Hnew. cbv iota beta in Hnew. destruct Hnew as [-> _].
    by rewrite applyOptions_configured.
  - intros p Hnew.
    change (NewAdapterWithPool p (map optionOf l) s)
      with (bootstrap (applyOptions (map optionOf l) (poolAdapter p)) s) in Hnew.
    apply bootstrap_inv in Hnew. cbv iota beta in Hnew. destruct Hnew as [-> _].
    by rewrite applyOptions_configured.
Qed.

Lemma closesOf_app t1 t2 : closesOf (t1 ++ t2) = closesOf t1 ++ closesOf t2.
Proof. apply omap_app. Qed.

Lemma closesOf_execs d l : closesOf (map (EvExec d) l) = [].
Proof. induction l as [|x l IH]; [done|]. exact IH. Qed.

Lemma createTable_closes a (s s' : Sys W) o :
  createTable a s = (o, s') -> closesOf (sys_trace s') = closesOf (sys_trace s).
Proof.
  destruct (db a) as [d|] eqn:Hdb.
  - intros Hrun. apply (createTable_trace _ d) in Hrun; [|done].
    destruct Hrun as (k & -> & _). by rewrite closesOf_app, closesOf_execs, app_nil_r.
  - unfold createTable. rewrite Hdb. by intros [= <- <-].
Qed.

Lemma bootstrap_closes a (s s' : Sys W) r :
  bootstrap a s = (r, s') -> closesOf (sys_trace s') = closesOf (sys_trace s).
Proof.
  unfold bootstrap, bind. destruct (createTable a s) as [o s1] eqn:Hrun.
  apply createTable_closes in Hrun.
  destruct o as [[x|]|msg]; unfold ret; intros [= <- <-]; done.
Qed.

(** X4: on the connection-string path the handle that was opened is closed
    in one case only, the failed probe.  When the probe succeeds, nothing is
    closed, whatever becomes of the bootstrap: a construction that fails in
    a statement returns no adapter and leaves the connection (or the pool)
    it opened open. *)
Theorem handle_closed_only_on_failed_probe (connStr : string) (opts : list Option)
    (s s' : Sys W) (r : NewResult) :
  NewAdapter connStr opts s = (r, s') ->
  exists closed,
    closesOf (sys_trace s') = closesOf (sys_trace s) ++ closed /\
    (closed <> [] ->
     exists x, r = NewReturned None (Some (Errorf "failed to ping database: " x))) /\
    (forall x, r = NewReturned None (Some (Errorf "failed to create table: " x)) ->
               closed = []).
Proof.
  unfold NewAdapter.
  destruct (usePool _); unfold bind, note, inWorld, modify, ret; simpl.
  - destruct (pgxpool_New _ _ _) as [[p|x] w1]; simpl.
    2: { intros [= <- <-]. exists []. cbn [sys_trace]. rewrite closesOf_app.
         split; [reflexivity|]. split; [intros Hne; by destruct Hne|intros; reflexivity]. }
    destruct (pool_Ping _ _ _) as [[x|] w2]; simpl.
    + destruct (pool_Close _ _) as [[] w3]. intros [= <- <-]. exists [DBPool p].
      cbn [sys_trace]. rewrite !closesOf_app. split; [unfold closesOf; simpl; by rewrite ?app_nil_r|].
      split; [by eexists|]. intros y Hy. discriminate Hy.
    + intros Hrun. apply bootstrap_closes in Hrun. exists []. cbn [sys_trace] in Hrun.
      rewrite Hrun, !closesOf_app. split; [unfold closesOf; simpl; by rewrite ?app_nil_r|]. split; [intros Hne; by destruct Hne|intros; reflexivity].
  - destruct (pgx_Connect _ _ _) as [[c|x] w1]; simpl.
    2: { intros [= <- <-]. exists []. cbn [sys_trace]. rewrite closesOf_app.
         split; [reflexivity|]. split; [intros Hne; by destruct Hne|intros; reflexivity]. }
    destruct (conn_Ping _ _ _) as [[x|] w2]; simpl.
    + destruct (conn_Close _ _ _) as [[] w3]. intros [= <- <-]. exists [DBConn c].
      cbn [sys_trace]. rewrite !closesOf_app. split; [unfold closesOf; simpl; by rewrite ?app_nil_r|].
      split; [by eexists|]. intros y Hy. discriminate Hy.
    + intros Hrun. apply bootstrap_closes in Hrun. exists []. cbn [sys_trace] in Hrun.
      rewrite Hrun, !closesOf_app. split; [unfold closesOf; simpl; by rewrite ?app_nil_r|]. split; [intros Hne; by destruct Hne|intros; reflexivity].
Qed.

End AccessorFacts.

(** ** Failures during a filtered load *)

Section LoadFailures.
Context {W : Type} `{!Driver W} {M : Type}.
Variable LoadPolicyArray : list string -> M -> M * option error.
Variable LoadPolicyCtx : Context -> State (Env W M) Outcome.

Lemma queriesOf_snoc tr ev :
  queriesOf (tr ++ [ev]) =
    queriesOf tr ++ match ev with EvQuery _ _ q => [q] | _ => [] end.
Proof. unfold queriesOf. rewrite omap_app. by destruct ev. Qed.

Lemma loadedLines_snoc tr ev :
  loadedLines (tr ++ [ev]) =
    loadedLines tr ++ match ev with EvLoadPolicyArray l => [l] | _ => [] end.
Proof. unfold loadedLines. rewrite omap_app. by destruct ev. Qed.

(** Scanning touches neither the adapter nor the world, and asks nothing. *)
Lemma scanRows_frame items (e e' : Env W M) err :
  scanRows LoadPolicyArray items e = (err, e') ->
  adapter e' = adapter e /\ world e' = world e /\
  queriesOf (trace e') = queriesOf (trace e).
Proof.
  revert e. induction items as [|[r|x] items IH]; intros e Hrun; simpl in Hrun.
  - by injection Hrun as <- <-.
  - unfold bind in Hrun. rewrite loadLine_eq in Hrun.
    destruct (snd (LoadPolicyArray (policyLine r) (model e))).
    + injection Hrun as <- <-. simpl. by rewrite queriesOf_snoc, app_nil_r.
    + apply IH in Hrun. simpl in Hrun. destruct Hrun as (-> & -> & ->).
      by rewrite queriesOf_snoc, app_nil_r.
  - by injection Hrun as <- <-.
Qed.

Lemma ToSql_filterQuery a f : ToSql (filterQuery a f) = Ok (filterQuery a f).
Proof. unfold ToSql. by destruct (filterQuery_shape a f) as (_ & -> & _). Qed.






(** Scanning rows the loader takes: the lines are loaded, in order. *)
Lemma scanRows_accepted_prefix good tail (e : Env W M) :
  accepted LoadPolicyArray (map policyLine good) (model e) ->
  scanRows LoadPolicyArray (map ScanOk good ++ tail) e =
    scanRows LoadPolicyArray tail
      (Build_Env (adapter e) (feed LoadPolicyArray (map policyLine good) (model e))
                 (world e) (trace e ++ map EvLoadPolicyArray (map policyLine good))).
Proof.
  revert e. induction good as [|r good IH]; intros e Hacc.
  - simpl. rewrite app_nil_r. by destruct e.
  - cbn [map app scanRows]. destruct Hacc as [Hr Hacc].
    unfold bind. rewrite loadLine_eq, Hr. rewrite IH by done.
    cbn [adapter model world trace feed foldl]. by rewrite <- app_assoc.
Qed.

Lemma loadedLines_loads tr lines :
  loadedLines (tr ++ map EvLoadPolicyArray lines) = loadedLines tr ++ lines.
Proof.
  unfold loadedLines. rewrite omap_app. f_equal.
  induction lines as [|l lines IH]; [done|]. simpl. f_equal. exact IH.
Qed.

(** A filter whose query is answered: the rows are scanned, then closed. *)
Lemma loadFilteredPolicies_rows ctx f (e : Env W M) d rows :
  db (adapter e) = Some d ->
  fst (db_Query d ctx (filterQuery (adapter e) f) (world e)) = Ok rows ->
  loadFilteredPolicies LoadPolicyArray ctx f e =
    (let (err, e1) :=
       scanRows LoadPolicyArray (rows_items rows)
         (Build_Env (adapter e) (model e)
                    (snd (db_Query d ctx (filterQuery (adapter e) f) (world e)))
                    (trace e ++ [EvQuery d ctx (filterQuery (adapter e) f)])) in
     (match err with
      | Some x => Returned (Some x)
      | None =>
          match rows_err rows with
          | Some x => Returned (Some (Errorf "error iterating rows: " x))
          | None => Returned None
          end
      end,
      Build_Env (adapter e1) (model e1) (world e1) (trace e1 ++ [EvRowsClose]))).
Proof.
  intros Hdb Hquery.
  unfold loadFilteredPolicies, bind at 1, gets. rewrite ToSql_filterQuery, Hdb.
  unfold bind at 1. rewrite query_eq, Hquery. unfold bind at 1.
  destruct (scanRows _ _ _) as [[x|] e1]; [done|]. by destruct (rows_err rows).
Qed.

(** X6: what a filter leaves behind when its load fails after the query.
    If scanning fails at some row, the error is "failed to scan row"
    around the driver's error; if the iteration ends with an error, it is
    "error iterating rows" around it; if the loader refuses a line, its
    error is returned as it is.  In each case the lines of the rows before
    the failure have already been handed to the model and stay there, the
    rows after it are never loaded, and the rows are closed. *)
Theorem partial_load_on_failure ctx f (e : Env W M) d rows good :
  db (adapter e) = Some d ->
  fst (db_Query d ctx (filterQuery (adapter e) f) (world e)) = Ok rows ->
  accepted LoadPolicyArray (map policyLine good) (model e) ->
  let run := loadFilteredPolicies LoadPolicyArray ctx f e in
  let before := feed LoadPolicyArray (map policyLine good) (model e) in
  (forall x rest,
      rows_items rows = map ScanOk good ++ ScanErr x :: rest ->
      fst run = Returned (Some (Errorf "failed to scan row: " x)) /\
      model (snd run) = before /\
      loadedLines (trace (snd run)) = loadedLines (trace e) ++ map policyLine good /\
      last (trace (snd run)) = Some EvRowsClose) /\
  (forall x,
      rows_items rows = map ScanOk good -> rows_err rows = Some x ->
      fst run = Returned (Some (Errorf "error iterating rows: " x)) /\
      model (snd run) = before /\
      loadedLines (trace (snd run)) = loadedLines (trace e) ++ map policyLine good /\
      last (trace (snd run)) = Some EvRowsClose) /\
  (forall bad y rest,
      rows_items rows = map ScanOk good ++ ScanOk bad :: rest ->
      snd (LoadPolicyArray (policyLine bad) before) = Some y ->
      fst run = Returned (Some y) /\
      model (snd run) = fst (LoadPolicyArray (policyLine bad) before) /\
      loadedLines (trace (snd run)) =
        loadedLines (trace e) ++ map policyLine good ++ [policyLine bad] /\
      last (trace (snd run)) = Some EvRowsClose).
Proof.
  intros Hdb Hquery Hacc run before. subst run.
  rewrite (loadFilteredPolicies_rows _ _ _ d rows) by done.
  split; [|split].
  - intros x rest ->. rewrite scanRows_accepted_prefix by done.
    cbn [scanRows adapter model world trace]. unfold ret. cbn [fst snd model trace].
    split; [reflexivity|]. split; [reflexivity|]. split; [|apply last_snoc].
    rewrite loadedLines_snoc, loadedLines_loads, loadedLines_snoc.
    by rewrite !app_nil_r.
  - intros x Hitems Herr. rewrite Hitems, <- (app_nil_r (map ScanOk good)).
    rewrite scanRows_accepted_prefix by done.
    cbn [scanRows adapter model world trace]. unfold ret. cbv beta iota.
    rewrite Herr. cbn [fst snd model trace].
    split; [reflexivity|]. split; [reflexivity|]. split; [|apply last_snoc].
    rewrite loadedLines_snoc, loadedLines_loads, loadedLines_snoc.
    by rewrite !app_nil_r.
  - intros bad y rest -> Hbad. rewrite scanRows_accepted_prefix by done.
    cbn [scanRows adapter model world trace]. unfold bind.
    rewrite !loadLine_eq. cbn [model]. fold before. rewrite !Hbad.
    unfold ret. cbv beta iota. cbn [fst snd model trace adapter world].
    split; [reflexivity|]. split; [reflexivity|]. split; [|apply last_snoc].
    rewrite !loadedLines_snoc, loadedLines_loads, loadedLines_snoc.
    by rewrite !app_nil_r, <- app_assoc.
Qed.

End LoadFailures.

(** ** More on the filtered load against the reference server *)

Lemma whereOf_nil column vals : whereOf column vals = [] <-> vals = [].
Proof. unfold whereOf. by destruct vals. Qed.

Lemma filter_all {A} (P : A -> Prop) `{!forall x, Decision (P x)} (l : list A) :
  (forall x, P x) -> filter P l = l.
Proof.
  intros Hall. induction l as [|x l IH]; [done|].
  by rewrite filter_cons, decide_True, IH.
Qed.

Section ReadOnly.
Context {M : Type}.
Variable LoadPolicyArray : list string -> M -> M * option error.
Variable LoadPolicyCtx : Context -> State (Env PgWorld M) Outcome.

(** X7: the query of a filter has one predicate for each list that has a
    value, so it has no predicate exactly when the filter is unconstrained
    (a zero [Filter]); such a filter selects every row of the table, and
    what the server returns is the whole table ordered by [id].  An empty
    batch, in contrast, returns at once having asked and loaded nothing,
    and leaves the adapter marked as filtered. *)
Theorem unconstrained_filter_selects_all (a : PgxAdapter) (f : Filter) :
  (sb_where (filterQuery a f) = [] <-> unconstrained f) /\
  length (sb_where (filterQuery a f)) =
    length (filter (fun vals => vals <> [])
                   [Ptype f; V0 f; V1 f; V2 f; V3 f; V4 f; V5 f]) /\
  (unconstrained f ->
   forall (e : Env PgWorld M) d ctx T,
     serves e d ctx T ->
     selectedRows f T = merge_sort idLe T /\
     selectedRows f T ≡ₚ T /\
     fst (db_Query d ctx (filterQuery (adapter e) f) (world e)) =
       Ok {| rows_items := map (fun r => ScanOk (scanRow r)) (merge_sort idLe T);
             rows_err := None |}) /\
  (forall (e : Env PgWorld M) ctx,
      LoadFilteredPolicyCtx LoadPolicyArray LoadPolicyCtx ctx (AnyFilterSlice []) e
        = (Returned None, flagged true e) /\
      LoadFilteredPolicyCtx LoadPolicyArray LoadPolicyCtx ctx
          (AnyBatchFilter {| Filters := [] |}) e
        = (Returned None, flagged true e)).
Proof.
  split.
  { rewrite filterQuery_where. unfold unconstrained.
    rewrite !app_nil, !whereOf_nil. tauto. }
  split.
  { rewrite filterQuery_where. unfold whereOf.
    destruct (Ptype f), (V0 f), (V1 f), (V2 f), (V3 f), (V4 f), (V5 f); reflexivity. }
  split.
  - intros Hfree e d ctx T Hserves.
    assert (selectedRows f T = merge_sort idLe T) as Hall.
    { unfold selectedRows. f_equal. apply filter_all. intros r.
      destruct Hfree as (H & H0 & H1 & H2 & H3 & H4 & H5).
      unfold matchesFilter, holds. rewrite H, H0, H1, H2, H3, H4, H5. tauto. }
    split; [done|]. split; [rewrite Hall; apply merge_sort_Permutation|].
    destruct Hserves as (Hdb & Hreach & n & cols & Hfold & Hrel).
    simpl. unfold pgQuery. rewrite Hreach. simpl.
    by rewrite (pgSelect_filterQuery _ _ _ n cols T), Hall.
  - intros e ctx. split.
    + by rewrite (LoadFilteredPolicyCtx_resolved _ _ _ _ []).
    + by rewrite (LoadFilteredPolicyCtx_resolved _ _ _ _ []).
Qed.

Lemma pgQuery_world d ctx q (w : PgWorld) : snd (pgQuery d ctx q w) = w.
Proof. unfold pgQuery. by destruct (unreachable d ctx w). Qed.

Lemma loadFilteredPolicies_world ctx f (e e' : Env PgWorld M) o :
  loadFilteredPolicies LoadPolicyArray ctx f e = (o, e') -> world e' = world e.
Proof.
  unfold loadFilteredPolicies, bind at 1, gets.
  destruct (ToSql _) as [stmt|x]; [|by intros [= <- <-]].
  destruct (db (adapter e)) as [d|]; [|by intros [= <- <-]].
  unfold bind at 1. rewrite query_eq.
  change (db_Query d ctx stmt (world e)) with (pgQuery d ctx stmt (world e)).
  rewrite pgQuery_world.
  destruct (fst (pgQuery _ _ _ _)) as [rows|x]; [|by intros [= <- <-]].
  unfold bind at 1. destruct (scanRows _ _ _) as [err e1] eqn:Hscan.
  apply scanRows_frame in Hscan. destruct Hscan as (_ & Hw & _). simpl in Hw.
  destruct err as [x|]; [|destruct (rows_err rows)]; run; by intros [= <- <-].
Qed.

Lemma loadEach_world ctx filters (e e' : Env PgWorld M) o :
  loadEach LoadPolicyArray ctx filters e = (o, e') -> world e' = world e.
Proof.
  revert e. induction filters as [|f filters IH]; intros e Hrun; simpl in Hrun.
  - by injection Hrun as <- <-.
  - unfold bind in Hrun. destruct (loadFilteredPolicies _ _ _ _) as [o1 e1] eqn:Hone.
    apply loadFilteredPolicies_world in Hone.
    destruct o1 as [[x|]|msg]; try (injection Hrun as <- <-; done).
    apply IH in Hrun. congruence.
Qed.

Lemma loadEvents_silent rest :
  Forall (fun ev => isLoadEvent ev = true) rest ->
  execsOf rest = [] /\ closesOf rest = [].
Proof.
  induction 1 as [|ev rest Hev _ [IH1 IH2]]; [done|].
  destruct ev; try discriminate; done.
Qed.

(** X8: a filtered load only reads.  Whatever the filter argument resolves
    to and whatever the outcome, the server is left exactly as it was (its
    relations, its rows, its open handles), no statement is executed and no
    handle is closed; of the adapter only the flag changes. *)
Theorem filtered_load_reads_only ctx filterArg filters (e e' : Env PgWorld M) o :
  typeSwitch filterArg = Resolved filters ->
  LoadFilteredPolicyCtx LoadPolicyArray LoadPolicyCtx ctx filterArg e = (o, e') ->
  world e' = world e /\
  execsOf (trace e') = execsOf (trace e) /\
  closesOf (trace e') = closesOf (trace e) /\
  adapter e' = set_isFiltered true (adapter e).
Proof.
  intros Hsw Hrun.
  rewrite (LoadFilteredPolicyCtx_resolved _ _ _ _ filters) in Hrun by done.
  pose proof (loadEach_world _ _ _ _ _ Hrun) as Hw.
  apply loadEach_loadOnly in Hrun. destruct Hrun as [Ha (rest & Ht & Hrest)].
  apply loadEvents_silent in Hrest. destruct Hrest as [Hx Hc].
  split; [done|]. rewrite Ht. unfold flagged. cbn [trace].
  unfold execsOf, closesOf in *. rewrite !omap_app, Hx, Hc. simpl.
  by rewrite !app_nil_r.
Qed.

End ReadOnly.

(** ** More on the bootstrap against the reference server *)


(** ** The names of the secondary indexes *)

Lemma underscore_split x y r1 r2 :
  underscoreFree x = true -> underscoreFree y = true ->
  underscoreLed r1 = true -> underscoreLed r2 = true ->
  x +:+ r1 = y +:+ r2 -> x = y /\ r1 = r2.
Proof.
  revert y. induction x as [|c x IH]; intros [|c' y] Hx Hy Hr1 Hr2 Heq; simpl in *.
  - done.
  - subst r1. simpl in Hr1. rewrite Hr1 in Hy. done.
  - subst r2. simpl in Hr2. rewrite Hr2 in Hx. done.
  - injection Heq as -> Heq.
    apply andb_true_iff in Hx as [_ Hx]. apply andb_true_iff in Hy as [_ Hy].
    destruct (IH y Hx Hy Hr1 Hr2 Heq) as [-> ->]. done.
Qed.

Lemma Join_cons x xs :
  Join (x :: xs) "_" = x +:+ match xs with [] => "" | _ => "_" +:+ Join xs "_" end.
Proof. destruct xs; simpl; by rewrite ?append_nil_r. Qed.

Lemma Join_underscore_inj l1 l2 :
  Forall plainName l1 -> Forall plainName l2 ->
  Join l1 "_" = Join l2 "_" -> l1 = l2.
Proof.
  intros H1. revert l2. induction H1 as [|x xs [Hx Hfx] Hxs IH]; intros l2 H2 Heq.
  - destruct H2 as [|y ys [Hy _] _]; [done|]. rewrite Join_cons in Heq.
    destruct y; [done|]. simpl in Heq. discriminate Heq.
  - destruct H2 as [|y ys [Hy Hfy] Hys].
    { rewrite Join_cons in Heq. destruct x; [done|]. simpl in Heq. discriminate Heq. }
    rewrite !Join_cons in Heq.
    apply underscore_split in Heq; [|done|done|by destruct xs|by destruct ys].
    destruct Heq as [-> Htail]. f_equal.
    destruct xs as [|x' xs], ys as [|y' ys]; try done.
    apply (inj (String.app "_")) in Htail. by apply IH.
Qed.

Lemma validColumn_cases c :
  validColumn c -> plainName c /\ clean c = c /\ hasColumn policyColumns c = true.
Proof.
  unfold validColumn, selectColumns. intros Hc.
  repeat (apply elem_of_cons in Hc as [->|Hc]; [by repeat split|]).
  by apply elem_of_nil in Hc.
Qed.

(** X10: the name of a secondary index determines its columns, as long as
    the column names are not empty and have no underscore in them, which
    holds of the valid columns [ptype], [v0] .. [v5]: two requests on the
    same table get the same index name only if they list the same columns
    in the same order.  So no request is skipped as already existing
    because of a different request.  With underscores this fails: the
    columns [a_b] and [a; b] give one name. *)
Theorem index_names_distinct (t : string) (cols1 cols2 : list string) :
  (Forall plainName cols1 -> Forall plainName cols2 ->
   indexName t cols1 = indexName t cols2 -> cols1 = cols2) /\
  (Forall validColumn cols1 -> Forall plainName cols1) /\
  indexName t ["a_b"] = indexName t ["a"; "b"].
Proof.
  split; [|split].
  - intros H1 H2 Heq. unfold indexName in Heq.
    apply (inj (String.app "idx_")), (inj (String.app t)), (inj (String.app "_")) in Heq.
    by apply Join_underscore_inj.
  - intros Hvalid. eapply Forall_impl; [exact Hvalid|].
    intros c Hc. by apply validColumn_cases.
  - reflexivity.
Qed.

(** ** A construction that succeeds *)




















(** ** The secondary indexes on the reference server *)








(** ** The two revisions *)

Lemma upgrade_options l a :
  wantsPool l = false ->
  upgrade (Earlier.applyOptions (earlierOptions l) a)
    = applyOptions (map optionOf l) (upgrade a).
Proof.
  unfold Earlier.applyOptions, applyOptions.
  revert a. induction l as [|x l IH]; intros a Hpool; [done|].
  destruct x as [name|name|columns|]; simpl in Hpool; [| | |done].
  all: cbn [earlierOptions omap list_omap map foldl]; fold (earlierOptions l);
    rewrite IH by done; f_equal.
  by destruct columns.
Qed.

Section Revisions.
Context {W : Type} `{!Driver W}.

Lemma createIndex_upgrade a ctx columns (s : Sys W) :
  Earlier.createIndex a ctx columns s = createIndex (upgrade a) ctx columns s.
Proof.
  unfold Earlier.createIndex, createIndex. cbn [db upgrade tableName].
  by destruct (Earlier.conn a).
Qed.

Lemma createIndexes_upgrade a ctx l (s : Sys W) :
  Earlier.createIndexes a ctx l s = createIndexes (upgrade a) ctx l s.
Proof.
  revert s. induction l as [|columns l IH]; intros s; [done|].
  cbn [Earlier.createIndexes createIndexes]. unfold bind.
  rewrite createIndex_upgrade.
  destruct (createIndex (upgrade a) ctx columns s) as [[[e|]|msg] s1];
    solve [done | apply IH].
Qed.

Lemma createTable_upgrade a (s : Sys W) :
  Earlier.createTable a s = createTable (upgrade a) s.
Proof.
  unfold Earlier.createTable, createTable. cbn [db upgrade tableName indexes].
  destruct (Earlier.conn a) as [c|]; [|done].
  unfold bind.
  destruct (exec (DBConn c) Background _ s) as [[e|] s1]; [done|].
  destruct (exec (DBConn c) Background _ s1) as [[e|] s2]; [done|].
  apply createIndexes_upgrade.
Qed.

Lemma NewAdapterWithConn_upgrade c l (s : Sys W) :
  wantsPool l = false ->
  NewAdapterWithConn c (map optionOf l) s
    = (upgradeResult (fst (Earlier.NewAdapterWithConn c (earlierOptions l) s)),
       snd (Earlier.NewAdapterWithConn c (earlierOptions l) s)).
Proof.
  intros Hpool. unfold NewAdapterWithConn, Earlier.NewAdapterWithConn, bootstrap.
  cbv zeta. unfold bind.
  rewrite createTable_upgrade, (upgrade_options l _ Hpool).
  change (upgrade {| Earlier.conn := Some c; Earlier.tableName := defaultTableName;
                     Earlier.database := defaultDatabase; Earlier.psql := Dollar;
                     Earlier.isFiltered := false; Earlier.indexes := [] |})
    with {| db := Some (DBConn c); conn := Some c; pool := None;
            tableName := defaultTableName; database := defaultDatabase;
            psql := Dollar; isFiltered := false; indexes := []; usePool := false |}.
  destruct (createTable _ s) as [[[e|]|msg] s1]; cbn [fst snd ret upgradeResult fmap];
    try done.
  unfold ret. cbn [fst snd upgradeResult]. do 2 f_equal.
  cbn. f_equal. by rewrite (upgrade_options l _ Hpool).
Qed.

(** X12: the two revisions of the adapter file agree.  Under options other
    than [WithPool] (which the earlier revision does not have), the
    constructors of the later revision do what those of the earlier did: the
    same calls to the driver in the same order, the same state of the
    server, and the same result, the adapter being the earlier one with the
    connection as its [DB].  One thing differs: when the connection cannot
    be opened, the earlier [NewAdapter] wraps the error as
    [failed to create connection pool], the later as
    [failed to create connection]. *)
Theorem revisions_agree (connStr : string) (c : Conn) (l : list Setting) (s : Sys W) :
  wantsPool l = false ->
  NewAdapterWithConn c (map optionOf l) s
    = (upgradeResult (fst (Earlier.NewAdapterWithConn c (earlierOptions l) s)),
       snd (Earlier.NewAdapterWithConn c (earlierOptions l) s)) /\
  snd (NewAdapter connStr (map optionOf l) s)
    = snd (Earlier.NewAdapter connStr (earlierOptions l) s) /\
  match fst (pgx_Connect Background connStr (sys_world s)) with
  | Ok _ =>
      fst (NewAdapter connStr (map optionOf l) s)
        = upgradeResult (fst (Earlier.NewAdapter connStr (earlierOptions l) s))
  | Err x =>
      fst (Earlier.NewAdapter connStr (earlierOptions l) s)
        = Earlier.NewReturned None (Some (Errorf "failed to create connection pool: " x)) /\
      fst (NewAdapter connStr (map optionOf l) s)
        = NewReturned None (Some (Errorf "failed to create connection: " x))
  end.
Proof.
  intros Hpool. split; [by apply NewAdapterWithConn_upgrade|].
  unfold NewAdapter, Earlier.NewAdapter. cbv zeta.
  rewrite applyOptions_configured. cbn [usePool configured zeroAdapter orb].
  rewrite Hpool.
  unfold bind, note, inWorld, modify, ret. cbn [fst snd sys_world sys_trace].
  destruct (pgx_Connect Background connStr (sys_world s)) as [[c0|x] w1];
    cbn [fst snd sys_world sys_trace]; [|done].
  destruct (conn_Ping c0 Background w1) as [[x|] w2]; cbn [fst snd sys_world sys_trace].
  - destruct (conn_Close c0 Background w2) as [[] w3]. done.
  - rewrite (NewAdapterWithConn_upgrade c0 l _ Hpool). done.
Qed.

End Revisions.

(** * The further properties at concrete inputs *)

Lemma accessors_after_NewAdapter_witness :
  NewAdapter "postgres://localhost/casbin" (map optionOf demoSettings) freshSys
    = (NewReturned (Some (configured demoSettings (poolAdapter 2))) None,
       snd (NewAdapter "postgres://localhost/casbin" (map optionOf demoSettings) freshSys)) /\
  GetTableName (configured demoSettings (poolAdapter 2)) = "rules" /\
  GetDatabase (configured demoSettings (poolAdapter 2)) = "authz" /\
  indexes (configured demoSettings (poolAdapter 2)) = [["v0"]].
Proof.
  assert (NewAdapter "postgres://localhost/casbin" (map optionOf demoSettings) freshSys
          = (NewReturned (Some (configured demoSettings (poolAdapter 2))) None,
             snd (NewAdapter "postgres://localhost/casbin" (map optionOf demoSettings)
                    freshSys)))
    as Hnew by (vm_compute; reflexivity).
  split; [exact Hnew|].
  destruct (accessors_after_NewAdapter "postgres://localhost/casbin" demoSettings freshSys
              _ _ Hnew) as (Htable & Hdatabase & _ & Hindexes & _).
  split; [exact Htable|]. split; [exact Hdatabase|exact Hindexes].
Defined.

Lemma given_handle_is_kept_witness :
  NewAdapterWithConn 0 (map optionOf demoSettings) freshSys
    = (NewReturned (Some (configured demoSettings (connAdapter 0))) None,
       snd (NewAdapterWithConn 0 (map optionOf demoSettings) freshSys)) /\
  GetConn (configured demoSettings (connAdapter 0)) = Some 0 /\
  GetPool (configured demoSettings (connAdapter 0)) = None /\
  GetDB (configured demoSettings (connAdapter 0)) = Some (DBConn 0) /\
  usePool (configured demoSettings (connAdapter 0)) = true.
Proof.
  assert (NewAdapterWithConn 0 (map optionOf demoSettings) freshSys
          = (NewReturned (Some (configured demoSettings (connAdapter 0))) None,
             snd (NewAdapterWithConn 0 (map optionOf demoSettings) freshSys)))
    as Hnew by (vm_compute; reflexivity).
  split; [exact Hnew|].
  exact (proj1 (given_handle_is_kept demoSettings freshSys _ _) 0 Hnew).
Defined.

(** The server does not answer: the pool is closed, and the error is the
    one of the probe. *)
Lemma handle_closed_only_on_failed_probe_witness :
  closesOf (sys_trace (snd (NewAdapter "postgres://localhost/casbin" [WithPool] downSys)))
    = [DBPool 0] /\
  exists x,
    fst (NewAdapter "postgres://localhost/casbin" [WithPool] downSys)
      = NewReturned None (Some (Errorf "failed to ping database: " x)).
Proof.
  split; [reflexivity|].
  destruct (handle_closed_only_on_failed_probe "postgres://localhost/casbin" [WithPool]
              downSys _ _ (surjective_pairing _)) as (closed & Hclosed & Hping & _).
  apply Hping. intros ->. discriminate Hclosed.
Defined.


(** The last row of the table has no policy type and the strict loader
    refuses it: the three rows before it stay loaded. *)
Lemma partial_load_on_failure_witness :
  db (adapter demoEnv) = Some (DBConn 0) /\
  fst (db_Query (DBConn 0) Background (filterQuery (adapter demoEnv) noFilter)
         (world demoEnv)) = Ok demoRows /\
  accepted strictLine (map policyLine [scanRow bobRow; scanRow aliceRow; scanRow groupRow])
    (model demoEnv) /\
  fst (loadFilteredPolicies strictLine Background noFilter demoEnv)
    = Returned (Some "invalid policy line") /\
  loadedLines (trace (snd (loadFilteredPolicies strictLine Background noFilter demoEnv)))
    = [["p"; "bob"; "data1"; "write"]; ["p"; "alice"; "data1"; "read"];
       ["g"; "alice"; "admin"]; [""; "carol"]] /\
  last (trace (snd (loadFilteredPolicies strictLine Background noFilter demoEnv)))
    = Some EvRowsClose.
Proof.
  assert (db (adapter demoEnv) = Some (DBConn 0)) as Hdb by reflexivity.
  assert (fst (db_Query (DBConn 0) Background (filterQuery (adapter demoEnv) noFilter)
                 (world demoEnv)) = Ok demoRows) as Hquery by (vm_compute; reflexivity).
  assert (accepted strictLine
            (map policyLine [scanRow bobRow; scanRow aliceRow; scanRow groupRow])
            (model demoEnv)) as Haccepted by (vm_compute; repeat split).
  split; [exact Hdb|]. split; [exact Hquery|]. split; [exact Haccepted|].
  destruct (proj2 (proj2 (partial_load_on_failure strictLine Background noFilter demoEnv
                            (DBConn 0) demoRows
                            [scanRow bobRow; scanRow aliceRow; scanRow groupRow]
                            Hdb Hquery Haccepted))
              (scanRow blankRow) "invalid policy line" [] eq_refl eq_refl)
    as (Hresult & _ & Hlines & Hlast).
  split; [exact Hresult|]. split; [exact Hlines|exact Hlast].
Defined.

Lemma unconstrained_filter_selects_all_witness :
  unconstrained noFilter /\
  serves demoEnv (DBConn 0) Background demoTable /\
  selectedRows noFilter demoTable = merge_sort idLe demoTable /\
  fst (db_Query (DBConn 0) Background (filterQuery (adapter demoEnv) noFilter)
         (world demoEnv)) = Ok demoRows.
Proof.
  assert (unconstrained noFilter) as Hfree by (vm_compute; repeat split).
  split; [exact Hfree|]. split; [exact demo_serves|].
  destruct (proj1 (proj2 (proj2
              (unconstrained_filter_selects_all recordLine (specLoadPolicyCtx recordLine)
                 (adapter demoEnv) noFilter)))
              Hfree demoEnv (DBConn 0) Background demoTable demo_serves)
    as (Hselected & _ & Hquery).
  split; [exact Hselected|exact Hquery].
Defined.

Lemma filtered_load_reads_only_witness :
  typeSwitch (AnyFilter aliceFilter) = Resolved [aliceFilter] /\
  world (snd (demoLoad Background (AnyFilter aliceFilter) demoEnv)) = demoWorld /\
  execsOf (trace (snd (demoLoad Background (AnyFilter aliceFilter) demoEnv))) = [] /\
  adapter (snd (demoLoad Background (AnyFilter aliceFilter) demoEnv))
    = set_isFiltered true (connAdapter 0).
Proof.
  split; [reflexivity|].
  destruct (filtered_load_reads_only recordLine (specLoadPolicyCtx recordLine) Background
              (AnyFilter aliceFilter) [aliceFilter] demoEnv _ _ eq_refl
              (surjective_pairing _)) as (Hworld & Hexecs & _ & Hadapter).
  split; [exact Hworld|]. split; [exact Hexecs|exact Hadapter].
Defined.

(** Two requests on the same columns in another order get two names. *)
Lemma index_names_distinct_witness :
  Forall validColumn ["v1"; "v2"] /\
  Forall plainName ["v1"; "v2"] /\
  Forall plainName ["v2"; "v1"] /\
  indexName "casbin_rule" ["v1"; "v2"] <> indexName "casbin_rule" ["v2"; "v1"].
Proof.
  assert (Forall validColumn ["v1"; "v2"]) as Hvalid.
  { apply (bool_decide_unpack _). vm_compute. reflexivity. }
  assert (Forall validColumn ["v2"; "v1"]) as Hvalid'.
  { apply (bool_decide_unpack _). vm_compute. reflexivity. }
  pose proof (proj1 (proj2 (index_names_distinct "casbin_rule" ["v1"; "v2"] ["v2"; "v1"]))
                Hvalid) as Hplain.
  pose proof (proj1 (proj2 (index_names_distinct "casbin_rule" ["v2"; "v1"] ["v1"; "v2"]))
                Hvalid') as Hplain'.
  split; [exact Hvalid|]. split; [exact Hplain|]. split; [exact Hplain'|].
  intros Hsame.
  pose proof (proj1 (index_names_distinct "casbin_rule" ["v1"; "v2"] ["v2"; "v1"])
                Hplain Hplain' Hsame) as Heq.
  discriminate Heq.
Defined.


(** On a server that does not answer the two revisions differ in the
    message only. *)
Lemma revisions_agree_witness :
  wantsPool plainSettings = false /\
  NewAdapterWithConn 0 (map optionOf plainSettings) freshSys
    = (upgradeResult (fst (Earlier.NewAdapterWithConn 0 (earlierOptions plainSettings)
                             freshSys)),
       snd (Earlier.NewAdapterWithConn 0 (earlierOptions plainSettings) freshSys)) /\
  fst (Earlier.NewAdapter "postgres://localhost/casbin" (earlierOptions plainSettings)
         downSys)
    = Earlier.NewReturned None (Some "failed to create connection pool: dial error: connection refused") /\
  fst (NewAdapter "postgres://localhost/casbin" (map optionOf plainSettings) downSys)
    = NewReturned None (Some "failed to create connection: dial error: connection refused").
Proof.
  assert (wantsPool plainSettings = false) as Hpool by reflexivity.
  split; [exact Hpool|].
  split; [exact (proj1 (revisions_agree "postgres://localhost/casbin" 0 plainSettings
                          freshSys Hpool))|].
  pose proof (proj2 (proj2 (revisions_agree "postgres://localhost/casbin" 0 plainSettings
                              downSys Hpool))) as Hdown.
  change (fst (pgx_Connect Background "postgres://localhost/casbin" (sys_world downSys)))
    with (Err (A := Conn) "dial error: connection refused") in Hdown.
  exact Hdown.
Defined.

(** ** Where the bootstrap stops *)

Section BootstrapStops.
Context {W : Type} `{!Driver W}.



End BootstrapStops.

(** ** Result sets *)

Section ResultSets.
Context {W : Type} `{!Driver W} {M : Type}.
Variable LoadPolicyArray : list string -> M -> M * option error.
Variable LoadPolicyCtx : Context -> State (Env W M) Outcome.

Lemma rowsClosed_snoc tr ev :
  rowsClosed (tr ++ [ev]) = rowsClosed tr + match ev with EvRowsClose => 1 | _ => 0 end.
Proof. unfold rowsClosed. rewrite omap_app, length_app. by destruct ev. Qed.

Lemma scanRows_closed items (e e' : Env W M) err :
  scanRows LoadPolicyArray items e = (err, e') ->
  rowsClosed (trace e') = rowsClosed (trace e).
Proof.
  revert e. induction items as [|[r|x] items IH]; intros e Hrun; simpl in Hrun.
  - by injection Hrun as <- <-.
  - unfold bind in Hrun. rewrite loadLine_eq in Hrun.
    destruct (snd (LoadPolicyArray (policyLine r) (model e))).
    + injection Hrun as <- <-. simpl. rewrite rowsClosed_snoc. lia.
    + apply IH in Hrun. simpl in Hrun. rewrite Hrun, rowsClosed_snoc. lia.
  - by injection Hrun as <- <-.
Qed.

(** One filter: no query and nothing to close, or a query that failed, or a
    query whose rows are closed. *)
Lemma loadFilteredPolicies_closed ctx f (e e' : Env W M) o :
  loadFilteredPolicies LoadPolicyArray ctx f e = (o, e') ->
  exists asked closed,
    length (queriesOf (trace e')) = length (queriesOf (trace e)) + asked /\
    rowsClosed (trace e') = rowsClosed (trace e) + closed /\
    (closed = asked \/
     asked = S closed /\
     exists x, o = Returned (Some (Errorf "failed to query policies: " x))) /\
    (o = Returned None -> closed = 1).
Proof.
  unfold loadFilteredPolicies, bind at 1, gets. rewrite ToSql_filterQuery.
  destruct (db (adapter e)) as [d|].
  2: { intros [= <- <-]. exists 0, 0. repeat split; try lia; try done. }
  unfold bind at 1. rewrite query_eq.
  destruct (fst (db_Query _ _ _ _)) as [rows|x].
  2: { intros [= <- <-]. exists 1, 0. simpl.
       rewrite queriesOf_snoc, length_app, rowsClosed_snoc. simpl.
       split; [done|]. split; [lia|]. split; [right; eauto|done]. }
  unfold bind at 1. destruct (scanRows _ _ _) as [err e1] eqn:Hscan.
  pose proof (scanRows_closed _ _ _ _ Hscan) as Hc.
  apply scanRows_frame in Hscan. simpl in Hscan, Hc. destruct Hscan as (_ & _ & Hq).
  rewrite queriesOf_snoc in Hq. rewrite rowsClosed_snoc in Hc.
  assert (forall o', (o', Build_Env (adapter e1) (model e1) (world e1)
                                    (trace e1 ++ [EvRowsClose])) = (o, e') ->
            exists asked closed,
              length (queriesOf (trace e')) = length (queriesOf (trace e)) + asked /\
              rowsClosed (trace e') = rowsClosed (trace e) + closed /\
              (closed = asked \/
               asked = S closed /\
               exists x, o = Returned (Some (Errorf "failed to query policies: " x))) /\
              (o = Returned None -> closed = 1)) as Hend.
  { intros o' [= <- <-]. exists 1, 1. simpl.
    rewrite queriesOf_snoc, Hq, rowsClosed_snoc, Hc, app_nil_r, length_app. simpl.
    split; [done|]. split; [lia|]. split; [by left|done]. }
  destruct err as [x|]; [|destruct (rows_err rows)]; run; apply Hend.
Qed.

Lemma loadEach_closed ctx filters (e e' : Env W M) o :
  loadEach LoadPolicyArray ctx filters e = (o, e') ->
  exists asked closed,
    length (queriesOf (trace e')) = length (queriesOf (trace e)) + asked /\
    rowsClosed (trace e') = rowsClosed (trace e) + closed /\
    (closed = asked \/
     asked = S closed /\
     exists x, o = Returned (Some (Errorf "failed to query policies: " x))) /\
    (o = Returned None -> closed = length filters).
Proof.
  revert e. induction filters as [|f filters IH]; intros e Hrun; simpl in Hrun.
  - injection Hrun as <- <-. exists 0, 0. repeat split; try lia; try done.
  - unfold bind in Hrun.
    destruct (loadFilteredPolicies _ _ _ _) as [o1 e1] eqn:Hone.
    apply loadFilteredPolicies_closed in Hone.
    destruct Hone as (q1 & c1 & Hq1 & Hc1 & Hcase1 & Hok1).
    assert (o1 <> Returned None -> (o1, e1) = (o, e') ->
            exists asked closed,
              length (queriesOf (trace e')) = length (queriesOf (trace e)) + asked /\
              rowsClosed (trace e') = rowsClosed (trace e) + closed /\
              (closed = asked \/
               asked = S closed /\
               exists x, o = Returned (Some (Errorf "failed to query policies: " x))) /\
              (o = Returned None -> closed = length (f :: filters))) as Hstop.
    { intros Hne [= <- <-]. exists q1, c1. done. }
    destruct o1 as [[x|]|msg]; [by apply Hstop| |by apply Hstop].
    apply IH in Hrun. destruct Hrun as (q & c & Hq & Hc & Hcase & Hok).
    specialize (Hok1 eq_refl). subst c1.
    assert (q1 = 1) as ->.
    { destruct Hcase1 as [<-|(_ & x & Hx)]; [done|discriminate Hx]. }
    exists (S q), (S c). split; [lia|]. split; [lia|]. split.
    + destruct Hcase as [->|(-> & x & ->)]; [by left|right; eauto].
    + intros Ho. simpl. by rewrite Hok.
Qed.

(** X14: a filtered load leaves no result set open.  Every query that is
    answered has its rows closed, whether the rows are loaded to the end or
    the load fails in the middle of them: as many result sets are closed as
    queries were asked, except when the last query itself failed, which is
    then the error returned and has no rows to close.  A load that returns
    without error has closed one result set for each filter. *)
Theorem result_sets_are_closed ctx filterArg filters (e e' : Env W M) o :
  typeSwitch filterArg = Resolved filters ->
  LoadFilteredPolicyCtx LoadPolicyArray LoadPolicyCtx ctx filterArg e = (o, e') ->
  exists asked closed,
    length (queriesOf (trace e')) = length (queriesOf (trace e)) + asked /\
    rowsClosed (trace e') = rowsClosed (trace e) + closed /\
    (closed = asked \/
     asked = S closed /\
     exists x, o = Returned (Some (Errorf "failed to query policies: " x))) /\
    (o = Returned None -> closed = length filters).
Proof.
  intros Hsw Hrun.
  rewrite (LoadFilteredPolicyCtx_resolved _ _ _ _ filters) in Hrun by done.
  apply loadEach_closed in Hrun. destruct Hrun as (q & c & Hq & Hc & Hcase & Hok).
  exists q, c. unfold flagged in Hq, Hc. cbn [trace] in Hq, Hc.
  rewrite queriesOf_app in Hq.
  change (queriesOf [EvLock; EvSetFiltered true; EvUnlock]) with (@nil SelectBuilder) in Hq.
  rewrite app_nil_r in Hq.
  unfold rowsClosed in Hc. rewrite omap_app, length_app in Hc. simpl in Hc.
  fold (rowsClosed (trace e)) in Hc. fold (rowsClosed (trace e')) in Hc.
  split; [done|]. split; [lia|]. done.
Qed.

End ResultSets.


(** The second filter of the batch selects a row the loader refuses: two
    queries were answered and two result sets are closed. *)
Lemma result_sets_are_closed_witness :
  typeSwitch (AnyFilterSlice [aliceFilter; blankFilter; bobFilter])
    = Resolved [aliceFilter; blankFilter; bobFilter] /\
  fst (strictLoad Background (AnyFilterSlice [aliceFilter; blankFilter; bobFilter]) demoEnv)
    = Returned (Some "invalid policy line") /\
  length (queriesOf (trace (snd (strictLoad Background
            (AnyFilterSlice [aliceFilter; blankFilter; bobFilter]) demoEnv)))) = 2 /\
  rowsClosed (trace (snd (strictLoad Background
            (AnyFilterSlice [aliceFilter; blankFilter; bobFilter]) demoEnv))) = 2.
Proof.
  split; [reflexivity|]. split; [vm_compute; reflexivity|].
  assert (length (queriesOf (trace (snd (strictLoad Background
            (AnyFilterSlice [aliceFilter; blankFilter; bobFilter]) demoEnv)))) = 2)
    as Hasked by (vm_compute; reflexivity).
  split; [exact Hasked|].
  destruct (result_sets_are_closed strictLine (specLoadPolicyCtx strictLine) Background
              (AnyFilterSlice [aliceFilter; blankFilter; bobFilter])
              [aliceFilter; blankFilter; bobFilter] demoEnv _ _ eq_refl
              (surjective_pairing _)) as (asked & closed & Hq & Hc & Hcase & _).
  unfold strictLoad in *. rewrite Hc. rewrite Hasked in Hq. simpl in Hq.
  destruct Hcase as [->|(-> & x & Hx)]; [simpl; lia|].
  exfalso. vm_compute in Hx. discriminate Hx.
Defined.
